(** * AlphaGO (12x12 five-in-a-row engine): board, threat solver and
      transposition-table score encoding.

    The development embeds
    - [include/core/board.h]: [Player], [Move] (with its comparison
      operators), the bitboard layout of [Board] and the index helpers;
    - [include/search/search_types.h]: the score constants;
    - [src/tactics/threat_solver_analysis.cpp] and
      [src/tactics/threat_solver_state.cpp]: the simplified threat solver;
    - [include/tactics/threat_solver_types.h]: its data types.

    The bodies of the [Board] member functions and of
    [TranspositionTable::toTTScore]/[fromTTScore] are not among the
    sources; they are modelled from the specification and marked so. *)

From Stdlib Require Import ZArith List Bool Lia Sorted Permutation.
Import ListNotations.
Local Open Scope Z_scope.

(* ------------------------------------------------------------------ *)
(** * core/board.h: constants, players, moves *)

Definition kBoardSize : Z := 12.
Definition kBoardCells : Z := kBoardSize * kBoardSize.

(** [enum class Player { Black = 0, White = 1 }] *)
Inductive Player : Type := Black | White.

Definition Player_eqb (p q : Player) : bool :=
  match p, q with
  | Black, Black | White, White => true
  | _, _ => false
  end.

(** [otherPlayer] of threat_solver_analysis.cpp. *)
Definition otherPlayer (p : Player) : Player :=
  if Player_eqb p Black then White else Black.

(** [struct Move { int x; int y; }] with [operator==] and [operator<]. *)
Module Move.
Record t : Type := mk { x : Z; y : Z }.

  (** [x == other.x && y == other.y] *)
Definition eqb (a other : t) : bool :=
    (x a =? x other) && (y a =? y other).

  (** [(x < other.x) || (x == other.x && y < other.y)] *)
Definition ltb (a other : t) : bool :=
    (x a <? x other) || ((x a =? x other) && (y a <? y other)).
End Move.
Abbreviation Move := Move.t.

(** The comparator handed to [std::sort] in [collectLegalMoves]:
    [(a.y == b.y) ? (a.x < b.x) : (a.y < b.y)]. *)
Definition rowMajorLess (a b : Move) : bool :=
  if Move.y a =? Move.y b then Move.x a <? Move.x b
  else Move.y a <? Move.y b.

(* ------------------------------------------------------------------ *)
(** * core/board.h: the bitboard state *)

(** One colour's [uint64_t [3]]: 144 cells spread over three words. *)
Record Bitboard : Type := mkBitboard { w0 : Z; w1 : Z; w2 : Z }.

Definition getWord (bb : Bitboard) (c : Z) : Z :=
  if c =? 0 then w0 bb else if c =? 1 then w1 bb
  else if c =? 2 then w2 bb else 0.

Definition setWord (bb : Bitboard) (c v : Z) : Bitboard :=
  if c =? 0 then mkBitboard v (w1 bb) (w2 bb)
  else if c =? 1 then mkBitboard (w0 bb) v (w2 bb)
  else if c =? 2 then mkBitboard (w0 bb) (w1 bb) v
  else bb.

(** [uint64_t bb_[2][3]; Player side_to_move_; uint64_t hashKey_]. *)
Record Board : Type := mkBoard {
  bbBlack : Bitboard;
  bbWhite : Bitboard;
  side_to_move_ : Player;
  hashKey_ : Z
}.

Definition bb_ (b : Board) (p : Player) : Bitboard :=
  match p with Black => bbBlack b | White => bbWhite b end.

Definition set_bb (b : Board) (p : Player) (v : Bitboard) : Board :=
  match p with
  | Black => mkBoard v (bbWhite b) (side_to_move_ b) (hashKey_ b)
  | White => mkBoard (bbBlack b) v (side_to_move_ b) (hashKey_ b)
  end.

(** [static inline int index(int x, int y) { return y * kBoardSize + x; }] *)
Definition index (x y : Z) : Z := y * kBoardSize + x.
(** [chunkOf(idx) = idx >> 6], [offsetOf(idx) = idx & 63]. *)
Definition chunkOf (idx : Z) : Z := Z.shiftr idx 6.
Definition offsetOf (idx : Z) : Z := Z.land idx 63.

Definition sideToMove (b : Board) : Player := side_to_move_ b.
Definition getHashKey (b : Board) : Z := hashKey_ b.

(** The static Zobrist tables [zobristTable_[12][12][2]] and
    [zobristSide_]; [initZobrist] is not among the sources, so the
    constants are a parameter of every operation that touches the hash. *)
Record ZobristKeys : Type := mkZobrist {
  zobristTable_ : Z -> Z -> Player -> Z;
  zobristSide_ : Z
}.

Definition inBounds (x y : Z) : bool :=
  (0 <=? x) && (x <? kBoardSize) && (0 <=? y) && (y <? kBoardSize).

(** Bit of cell [(x, y)] in the bitboard of [p]. *)
Definition hasStone (b : Board) (p : Player) (x y : Z) : bool :=
  Z.testbit (getWord (bb_ b p) (chunkOf (index x y))) (offsetOf (index x y)).

Definition putStone (b : Board) (p : Player) (x y : Z) : Board :=
  let c := chunkOf (index x y) in
  set_bb b p (setWord (bb_ b p) c
    (Z.lor (getWord (bb_ b p) c) (Z.shiftl 1 (offsetOf (index x y))))).

Definition dropStone (b : Board) (p : Player) (x y : Z) : Board :=
  let c := chunkOf (index x y) in
  set_bb b p (setWord (bb_ b p) c
    (Z.ldiff (getWord (bb_ b p) c) (Z.shiftl 1 (offsetOf (index x y))))).

(** Modelled from the spec: the body of [Board::Board()] is missing;
    a position is "created empty", black moves first. *)
Definition emptyBoard : Board :=
  mkBoard (mkBitboard 0 0 0) (mkBitboard 0 0 0) Black 0.

(** Modelled from the spec: the body of [Board::isOccupied] is missing;
    "returns true if the cell is occupied by either color". *)
Definition isOccupied (b : Board) (x y : Z) : bool :=
  hasStone b Black x y || hasStone b White x y.

(** Modelled from the spec: the body of [Board::getCellState] is missing;
    "0 = empty, 1 = black, 2 = white". *)
Definition getCellState (b : Board) (x y : Z) : Z :=
  if hasStone b Black x y then 1
  else if hasStone b White x y then 2 else 0.

Definition stoneOf (p : Player) : Z :=
  match p with Black => 1 | White => 2 end.

Section BoardOps.
Variable zob : ZobristKeys.

  (** Modelled from the spec: the body of [Board::makeMove] is missing;
      it "fails (returns false, no state change) when the cell is out of
      range or occupied; otherwise places the side-to-move's stone, flips
      side-to-move, and updates the hash by XORing in the placed-stone
      constant and the side constant".  The board is passed in and the
      updated board returned next to the boolean. *)
Definition makeMove (b : Board) (x y : Z) : bool * Board :=
    if negb (inBounds x y) then (false, b)
    else if isOccupied b x y then (false, b)
    else
      let p := side_to_move_ b in
      let b1 := putStone b p x y in
      (true,
       mkBoard (bbBlack b1) (bbWhite b1) (otherPlayer p)
         (Z.lxor (Z.lxor (hashKey_ b) (zobristTable_ zob x y p))
                 (zobristSide_ zob))).

  (** Modelled from the spec: the body of [Board::unmakeMove] is missing;
      it "is the exact inverse and is only well-defined when (x,y) was the
      most recent successful makeMove": it removes the stone of the player
      who moved last, toggles the side back and restores the hash.  Where
      the cell is out of range or does not carry that player's stone the
      model reports failure and leaves the board as it is. *)
Definition unmakeMove (b : Board) (x y : Z) : bool * Board :=
    let p := otherPlayer (side_to_move_ b) in
    if negb (inBounds x y) then (false, b)
    else if negb (hasStone b p x y) then (false, b)
    else
      let b1 := dropStone b p x y in
      (true,
       mkBoard (bbBlack b1) (bbWhite b1) p
         (Z.lxor (Z.lxor (hashKey_ b) (zobristSide_ zob))
                 (zobristTable_ zob x y p))).
(** Modelled from the spec: the body of [Board::placeStone] is missing;
    the header has it as "direct stone placement ... for setup" that is to
    "keep hashing consistent", and the hash is "XOR of a per-(cell,color)
    random constant for every occupied cell": the stone of [player] goes on
    a free cell of the board, whoever is to move, its constant is XORed
    into the hash, and the side to move stays. *)
Definition placeStone (b : Board) (x y : Z) (player : Player)
  : bool * Board :=
  if negb (inBounds x y) then (false, b)
  else if isOccupied b x y then (false, b)
  else
    let b1 := putStone b player x y in
    (true,
     mkBoard (bbBlack b1) (bbWhite b1) (side_to_move_ b)
       (Z.lxor (hashKey_ b) (zobristTable_ zob x y player))).
End BoardOps.

(* ------------------------------------------------------------------ *)
(** * search/search_types.h: MoveGuard *)

(** [class MoveGuard { Board& board_; Move move_; bool valid_; }]: the
    board is held by reference, so the constructor and the destructor take
    the board and return it. *)
Module MoveGuard.
Record t : Type := mk { move_ : Move; valid_ : bool }.

Section Guard.
Variable zob : ZobristKeys.

(** [MoveGuard(Board& board, const Move& move) : board_(board), move_(move),
    valid_(board_.makeMove(move.x, move.y)) {}] *)
Definition construct (board : Board) (move : Move) : t * Board :=
  let '(ok, board) := makeMove zob board (Move.x move) (Move.y move) in
  (mk move ok, board).

(** [~MoveGuard() { if (valid_) { board_.unmakeMove(move_.x, move_.y); } }] *)
Definition destroy (g : t) (board : Board) : Board :=
  if valid_ g
  then snd (unmakeMove zob board (Move.x (move_ g)) (Move.y (move_ g)))
  else board.
End Guard.

(** [bool isValid() const { return valid_; }] *)
Definition isValid (g : t) : bool := valid_ g.
End MoveGuard.

(** The four line directions as steps [(dx, dy)]: horizontal, vertical,
    diagonal NW-SE and diagonal NE-SW. *)
Definition lineSteps : list (Z * Z) := [(1, 0); (0, 1); (1, 1); (1, -1)].

(** Five stones of [p] in a row starting at [(x, y)] with step [(dx, dy)]. *)
Definition fiveFrom (b : Board) (p : Player) (x y : Z) (d : Z * Z) : bool :=
  forallb (fun k =>
             inBounds (x + k * fst d) (y + k * snd d)
             && hasStone b p (x + k * fst d) (y + k * snd d))
          [0; 1; 2; 3; 4].

(** Every cell of the board in row-major order (y outer, x inner). *)
Definition coords : list Z := [0; 1; 2; 3; 4; 5; 6; 7; 8; 9; 10; 11].
Definition allCells : list Move :=
  flat_map (fun yy => map (fun xx => Move.mk xx yy) coords) coords.

(** Modelled from the spec: the body of [Board::checkWin] is missing; it
    "scans all four line directions from every stone of player for
    five-in-a-row contiguity; it is a pure query". *)
Definition checkWin (b : Board) (player : Player) : bool :=
  existsb (fun m =>
             existsb (fiveFrom b player (Move.x m) (Move.y m)) lineSteps)
          allCells.

(** Modelled from the spec: the body of [Board::getLegalMoves] is
    missing; it "returns every empty cell in a fixed deterministic order
    (row-major)". *)
Definition getLegalMoves (b : Board) : list Move :=
  filter (fun m => negb (isOccupied b (Move.x m) (Move.y m))) allCells.

(* ------------------------------------------------------------------ *)
(** * tactics/threat_solver_types.h *)

Inductive Direction : Type := Horizontal | Vertical | DiagNWSE | DiagNESW.

Inductive ThreatType : Type :=
  | None_ | Five | OpenFour
  | SimpleFour | OpenThree | BrokenThree
  | SimpleThree | TwoFourWays | TwoThreeWays | TwoTwoWays | TwoOneWay
  | OneFiveWays | OneFourWays | OneThreeWays | OneTwoWays | OneOneWay.

(** "SimpleFour, OpenThree, BrokenThree => forcing threats". *)
Definition isForcingType (t : ThreatType) : bool :=
  match t with
  | SimpleFour | OpenThree | BrokenThree => true
  | _ => false
  end.

Module ThreatInstance.
Record t : Type := mk {
    type : ThreatType;
    attacker : Player;
    direction : Direction;
    stones : list Move;
    requiredEmpty : list Move;
    defensePoints : list Move;
    finishingMoves : list Move
  }.
  (** [ThreatInstance threat{}]: the default member initialisers. *)
Definition default : t := mk None_ Black Horizontal [] [] [] [].
End ThreatInstance.
Abbreviation ThreatInstance := ThreatInstance.t.

Module ThreatSequence.
Record t : Type := mk {
    attacker : Player;
    threats : list ThreatInstance;
    attackerMoves : list Move;
    defenderMoves : list Move
  }.
Definition default : t := mk Black [] [] [].
End ThreatSequence.
Abbreviation ThreatSequence := ThreatSequence.t.

Record DefensiveSet : Type := mkDefensiveSet {
  isLost : bool;
  defensiveMoves : list Move
}.

(** [struct ThreatSearchLimits].  [abortFlag] is a non-owning pointer to a
    flag owned by the caller: [None] is [nullptr]; [Some flag] gives the
    value [*abortFlag] read at the poll made when [nodes] branch points
    have been counted, so that a flag raised from outside while the search
    runs is a function that turns true from some poll on. *)
Record ThreatSearchLimits : Type := mkLimits {
  maxNodes : Z;
  maxDepth : Z;
  abortFlag : option (Z -> bool)
}.

(** The default member initialisers, i.e. the argument [{}]. *)
Definition defaultLimits : ThreatSearchLimits := mkLimits 200000 20 None.

(** [limits.abortFlag && *limits.abortFlag] *)
Definition abortRequested (limits : ThreatSearchLimits) (nodes : Z) : bool :=
  match abortFlag limits with
  | None => false
  | Some flag => flag nodes
  end.

(* ------------------------------------------------------------------ *)
(** * std::sort with a comparator *)

Fixpoint insertBy (less : Move -> Move -> bool) (m : Move) (l : list Move)
  : list Move :=
  match l with
  | [] => [m]
  | h :: t => if less m h then m :: h :: t else h :: insertBy less m t
  end.

(** [std::sort(first, last, less)], as insertion sort: on the pairwise
    distinct cells it is applied to, every correct sort gives this list. *)
Definition sortBy (less : Move -> Move -> bool) (l : list Move) : list Move :=
  fold_right (insertBy less) [] l.

(* ------------------------------------------------------------------ *)
(** * tactics/threat_solver_internal.h and threat_solver_state.cpp *)

(** [struct ThreatSolver::Impl { const Board* rootBoard = nullptr; }]: the
    solver keeps a pointer to the caller's board; [rootBoard] is the board
    it points to at the time of a call, [None] when the pointer is null. *)
Record Impl : Type := mkImpl { rootBoard : option Board }.

(** [Impl::Impl(const Board& board) : rootBoard(&board)] *)
Definition newImpl (board : Board) : Impl := mkImpl (Some board).

(** [void Impl::syncFromBoard(const Board& board) { rootBoard = &board; }] *)
Definition syncFromBoard (impl : Impl) (board : Board) : Impl :=
  mkImpl (Some board).

(** [void Impl::notifyMove(const Move&)] and [void Impl::notifyUndo(const
    Move&)]: both bodies are empty. *)
Definition notifyMove (impl : Impl) (move : Move) : Impl := impl.
Definition notifyUndo (impl : Impl) (move : Move) : Impl := impl.

(** [ThreatType Impl::getThreatAt(Player, const Move&, Direction) const] *)
Definition getThreatAt (impl : Impl) (attacker : Player) (move : Move)
    (direction : Direction) : ThreatType :=
  None_.

(** [void Impl::getThreatsAt(Player, const Move&, std::vector<ThreatType>& out)]:
    the vector [out] is passed in and the updated vector returned. *)
Definition getThreatsAt (impl : Impl) (attacker : Player) (move : Move)
    (out : list ThreatType) : list ThreatType :=
  let out := @nil ThreatType in
  let out := out ++ [getThreatAt impl attacker move Horizontal] in
  let out := out ++ [getThreatAt impl attacker move Vertical] in
  let out := out ++ [getThreatAt impl attacker move DiagNWSE] in
  let out := out ++ [getThreatAt impl attacker move DiagNESW] in
  out.

(* ------------------------------------------------------------------ *)
(** * tactics/threat_solver_analysis.cpp *)

(** [struct ThreatAnalysis] of tactics/ithreat_solver.h. *)
Module ThreatAnalysis.
Record t : Type := mk {
  attackerHasForcedWin : bool;
  firstWinningMove : Move;
  winningLine : list Move;
  defensiveMoves : list Move
}.
(** The default member initialisers; [Move{}] is (0, 0). *)
Definition default : t := mk false (Move.mk 0 0) [] [].
End ThreatAnalysis.
Abbreviation ThreatAnalysis := ThreatAnalysis.t.

(** Result of a loop body that may [return] from the enclosing function. *)
Inductive Flow (A : Type) : Type :=
  | Return (a : A)
  | Continue (a : A).
Arguments Return {A} a.
Arguments Continue {A} a.

Section Solver.
Variable zob : ZobristKeys.

(** [bool isImmediateWinningMove(Board& board, const Move& move, Player attacker)]:
    the board is taken by reference, so the board after the call is
    returned with the answer. *)
Definition isImmediateWinningMove (board : Board) (move : Move)
    (attacker : Player) : bool * Board :=
  if isOccupied board (Move.x move) (Move.y move) then (false, board)
  else
    let '(ok, board) := makeMove zob board (Move.x move) (Move.y move) in
    if negb ok then (false, board)
    else
      let win := checkWin board attacker in
      let '(_, board) := unmakeMove zob board (Move.x move) (Move.y move) in
      (win, board).

(** [std::vector<Move> collectLegalMoves(const Board& board)] *)
Definition collectLegalMoves (board : Board) : list Move :=
  sortBy rowMajorLess (getLegalMoves board).

(** [ThreatInstance threat{}; threat.type = ThreatType::Five;
    threat.attacker = attacker; threat.finishingMoves.push_back(move);]
    (lines 74-77 and 155-158). *)
Definition fiveThreat (attacker : Player) (move : Move) : ThreatInstance :=
  ThreatInstance.mk Five attacker
    (ThreatInstance.direction ThreatInstance.default)
    (ThreatInstance.stones ThreatInstance.default)
    (ThreatInstance.requiredEmpty ThreatInstance.default)
    (ThreatInstance.defensePoints ThreatInstance.default)
    (ThreatInstance.finishingMoves ThreatInstance.default ++ [move]).

(** The sequence built when [move] wins at once (lines 79-84). *)
Definition fiveSequence (attacker : Player) (move : Move) : ThreatSequence :=
  let threat := fiveThreat attacker move in
  ThreatSequence.mk attacker ([] ++ [threat]) ([] ++ [move]) [].

(** The [for] loop of [findWinningThreatSequence] (lines 66-87) over the
    moves still to visit; [Some seq] is [outSequence = seq; return true],
    [None] is [return false].  [nodes] is at most 145, far from the range
    of [int]. *)
Fixpoint findLoop (attacker : Player) (limits : ThreatSearchLimits)
    (legal : list Move) (boardCopy : Board) (nodes : Z)
  : option ThreatSequence :=
  match legal with
  | [] => None
  | move :: rest =>
      if abortRequested limits nodes then None
      else
        let nodes := nodes + 1 in
        if nodes >? maxNodes limits then None
        else
          let '(win, boardCopy) :=
            isImmediateWinningMove boardCopy move attacker in
          if win then Some (fiveSequence attacker move)
          else findLoop attacker limits rest boardCopy nodes
  end.

(** [bool Impl::findWinningThreatSequence(Player attacker,
    ThreatSequence& outSequence, const ThreatSearchLimits& limits) const]:
    the out-parameter is passed in and returned with the answer. *)
Definition findWinningThreatSequence (impl : Impl) (attacker : Player)
    (outSequence : ThreatSequence) (limits : ThreatSearchLimits)
  : bool * ThreatSequence :=
  match rootBoard impl with
  | None => (false, outSequence)
  | Some root =>
      let boardCopy := root in
      if checkWin boardCopy attacker
      then (true, ThreatSequence.mk attacker [] [] [])
      else
        let legal := collectLegalMoves boardCopy in
        match findLoop attacker limits legal boardCopy 0 with
        | Some seq => (true, seq)
        | None => (false, outSequence)
        end
  end.

(** The [for] loop of [computeDefensiveSet] (lines 102-112). *)
Fixpoint defenseLoop (attacker : Player) (limits : ThreatSearchLimits)
    (legal : list Move) (boardCopy : Board) (nodes : Z)
    (result : DefensiveSet) : Flow DefensiveSet :=
  match legal with
  | [] => Continue result
  | move :: rest =>
      if abortRequested limits nodes then Return result
      else
        let nodes := nodes + 1 in
        if nodes >? maxNodes limits then Return result
        else
          let '(win, boardCopy) :=
            isImmediateWinningMove boardCopy move attacker in
          let result :=
            if win
            then mkDefensiveSet (isLost result)
                   (defensiveMoves result ++ [move])
            else result in
          defenseLoop attacker limits rest boardCopy nodes result
  end.

(** [DefensiveSet Impl::computeDefensiveSet(Player defender,
    const ThreatSearchLimits& limits) const] *)
Definition computeDefensiveSet (impl : Impl) (defender : Player)
    (limits : ThreatSearchLimits) : DefensiveSet :=
  let result := mkDefensiveSet false [] in
  match rootBoard impl with
  | None => result
  | Some root =>
      let attacker := otherPlayer defender in
      let boardCopy := root in
      let legal := collectLegalMoves boardCopy in
      match defenseLoop attacker limits legal boardCopy 0 result with
      | Return result => result
      | Continue result =>
          if (length (defensiveMoves result) =? 0)%nat
          then mkDefensiveSet false (defensiveMoves result)
          else if (1 <? length (defensiveMoves result))%nat
          then mkDefensiveSet true []
          else mkDefensiveSet false (defensiveMoves result)
      end
  end.

(** The [for] loop of [hasImmediateWinningThreat] (lines 138-142). *)
Fixpoint threatLoop (player : Player) (legal : list Move)
    (boardCopy : Board) : bool :=
  match legal with
  | [] => false
  | move :: rest =>
      let '(win, boardCopy) := isImmediateWinningMove boardCopy move player in
      if win then true else threatLoop player rest boardCopy
  end.

(** [bool Impl::hasImmediateWinningThreat(Player player) const] *)
Definition hasImmediateWinningThreat (impl : Impl) (player : Player) : bool :=
  match rootBoard impl with
  | None => false
  | Some root =>
      let boardCopy := root in
      if checkWin boardCopy player then true
      else threatLoop player (collectLegalMoves boardCopy) boardCopy
  end.

(** The [for] loop of [collectCurrentForcingThreats] (lines 153-161). *)
Fixpoint collectLoop (player : Player) (legal : list Move)
    (boardCopy : Board) (out : list ThreatInstance) : list ThreatInstance :=
  match legal with
  | [] => out
  | move :: rest =>
      let '(win, boardCopy) := isImmediateWinningMove boardCopy move player in
      let out :=
        if win
        then out ++ [fiveThreat player move]
        else out in
      collectLoop player rest boardCopy out
  end.

(** [void Impl::collectCurrentForcingThreats(Player player,
    std::vector<ThreatInstance>& out) const]: [out] is passed in and the
    updated vector returned. *)
Definition collectCurrentForcingThreats (impl : Impl) (player : Player)
    (out : list ThreatInstance) : list ThreatInstance :=
  let out := @nil ThreatInstance in
  match rootBoard impl with
  | None => out
  | Some root =>
      let boardCopy := root in
      collectLoop player (collectLegalMoves boardCopy) boardCopy out
  end.

(** [ThreatAnalysis Impl::analyzeThreats(const Board& board, Player attacker)]
    (lines 33-51); the solver after the call is returned with the
    analysis. *)
Definition analyzeThreats (impl : Impl) (board : Board) (attacker : Player)
  : ThreatAnalysis * Impl :=
  let impl := syncFromBoard impl board in
  let result := ThreatAnalysis.default in
  let sequence := ThreatSequence.default in
  let '(found, sequence) :=
    findWinningThreatSequence impl attacker sequence defaultLimits in
  if found then
    let result :=
      ThreatAnalysis.mk true
        (ThreatAnalysis.firstWinningMove result)
        (ThreatAnalysis.winningLine result)
        (ThreatAnalysis.defensiveMoves result) in
    let result :=
      match ThreatSequence.attackerMoves sequence with
      | [] => result
      | front :: _ =>
          ThreatAnalysis.mk (ThreatAnalysis.attackerHasForcedWin result)
            front (ThreatSequence.attackerMoves sequence)
            (ThreatAnalysis.defensiveMoves result)
      end in
    (result, impl)
  else
    let defensive :=
      computeDefensiveSet impl (otherPlayer attacker) defaultLimits in
    (ThreatAnalysis.mk (isLost defensive)
       (ThreatAnalysis.firstWinningMove result)
       (ThreatAnalysis.winningLine result)
       (defensiveMoves defensive),
     impl).

(** The inline adapter [ThreatSolver::analyzeThreats] of the documented
    header (tactics/threat_solver_types.h, lines 244-279): it does not look
    at [board], asks both questions of the solver as it stands, and hands
    back no defensive move when the set is lost. *)
Definition analyzeThreatsAdapter (impl : Impl) (board : Board)
    (attacker : Player) : ThreatAnalysis :=
  let result := ThreatAnalysis.default in
  let winningSeq := ThreatSequence.default in
  let '(found, winningSeq) :=
    findWinningThreatSequence impl attacker winningSeq defaultLimits in
  let result :=
    if found then
      let first :=
        match ThreatSequence.attackerMoves winningSeq with
        | [] => ThreatAnalysis.firstWinningMove result
        | front :: _ => front
        end in
      ThreatAnalysis.mk true first (ThreatSequence.attackerMoves winningSeq)
        (ThreatAnalysis.defensiveMoves result)
    else result in
  let defender := if Player_eqb attacker Black then White else Black in
  let ds := computeDefensiveSet impl defender defaultLimits in
  if isLost ds
  then ThreatAnalysis.mk (ThreatAnalysis.attackerHasForcedWin result)
         (ThreatAnalysis.firstWinningMove result)
         (ThreatAnalysis.winningLine result) []
  else ThreatAnalysis.mk (ThreatAnalysis.attackerHasForcedWin result)
         (ThreatAnalysis.firstWinningMove result)
         (ThreatAnalysis.winningLine result) (defensiveMoves ds).

End Solver.

(* ------------------------------------------------------------------ *)
(** * search/search_types.h and search/transposition_table.h *)

(** [using EvalScore = int]: a 32-bit signed integer; [wrapInt] is the
    value an [int] holds after an arithmetic result [z]. *)
Definition INT_MAX : Z := 2147483647.
Definition wrapInt (z : Z) : Z := (z + 2 ^ 31) mod 2 ^ 32 - 2 ^ 31.

(** [kInfinity = std::numeric_limits<EvalScore>::max() / 4],
    [kMateScore = kInfinity - 1000], [kDrawScore = 0]. *)
Definition kInfinity : Z := INT_MAX / 4.
Definition kMateScore : Z := kInfinity - 1000.
Definition kDrawScore : Z := 0.

Section TTScore.
(** The bound from which a score counts as a mate score; the sources
    declare [toTTScore]/[fromTTScore] without their bodies, so the bound is
    a parameter. *)
Variable mateThreshold : Z.

(** Modelled from the spec: the body of [TranspositionTable::toTTScore] is
    missing; it gives "[score - plyFromRoot] for winning mates,
    [score + plyFromRoot] for losing mates, ordinary scores pass through
    unchanged". *)
Definition toTTScore (score plyFromRoot : Z) : Z :=
  if mateThreshold <=? score then wrapInt (score - plyFromRoot)
  else if score <=? - mateThreshold then wrapInt (score + plyFromRoot)
  else score.

(** Modelled from the spec: the body of [TranspositionTable::fromTTScore]
    is missing; it "reverses this on read". *)
Definition fromTTScore (score plyFromRoot : Z) : Z :=
  if mateThreshold <=? score then wrapInt (score + plyFromRoot)
  else if score <=? - mateThreshold then wrapInt (score - plyFromRoot)
  else score.

(** A mate score [s] met [d] plies from the root that is still a mate
    score once the distance is taken off, within the range of [int]. *)
Definition validMateScore (s d : Z) : Prop :=
  0 < mateThreshold /\ 0 <= d /\
  mateThreshold + d <= Z.abs s /\ Z.abs s <= INT_MAX.

(** Neither a winning nor a losing mate. *)
Definition ordinaryScore (s : Z) : Prop :=
  - mateThreshold < s < mateThreshold.
End TTScore.

(* ------------------------------------------------------------------ *)
(** * Concrete positions used by the examples *)

(** Some fixed 64-bit keys standing for the random Zobrist constants. *)
Definition sampleZobrist : ZobristKeys :=
  mkZobrist
    (fun x y p =>
       ((index x y * 2 + stoneOf p) * 11400714819323198485) mod 2 ^ 64)
    14029467366897019727.

(** Replays a game from [b] with [makeMove]. *)
Definition playMoves (zob : ZobristKeys) (b : Board) (ms : list (Z * Z))
  : Board :=
  fold_left (fun b m => snd (makeMove zob b (fst m) (snd m))) ms b.

(** Black to move with black stones on (0,0)..(3,0); (4,0) is empty. *)
Definition blackFourBoard : Board :=
  Eval vm_compute in
  playMoves sampleZobrist emptyBoard
    [(0,0); (0,5); (1,0); (2,7); (2,0); (5,9); (3,0); (7,3)].

(** White to move with white stones on (0,0)..(3,0); (4,0) is empty. *)
Definition whiteFourBoard : Board :=
  Eval vm_compute in
  playMoves sampleZobrist emptyBoard
    [(0,5); (0,0); (2,7); (1,0); (5,9); (2,0); (7,3); (3,0); (9,6)].

(** White to move with white stones on (1,0)..(4,0); (0,0) and (5,0) are
    empty. *)
Definition whiteOpenFourBoard : Board :=
  Eval vm_compute in
  playMoves sampleZobrist emptyBoard
    [(0,5); (1,0); (2,7); (2,0); (5,9); (3,0); (7,3); (4,0); (9,6)].

(** White to move with white stones on (3,0)..(6,0); (2,0) and (7,0) are
    empty, and so are (0,0) and (1,0) before them. *)
Definition whiteMidFourBoard : Board :=
  Eval vm_compute in
  playMoves sampleZobrist emptyBoard
    [(0,5); (3,0); (2,7); (4,0); (5,9); (5,0); (7,3); (6,0); (9,6)].

(** Black to move with white stones on (0,0)..(3,0); (4,0) is empty. *)
Definition whiteFourBlackToMove : Board :=
  Eval vm_compute in
  playMoves sampleZobrist emptyBoard
    [(0,5); (0,0); (2,7); (1,0); (5,9); (2,0); (7,3); (3,0)].

(** Black to move with white stones on (1,0)..(4,0); (0,0) and (5,0) are
    empty. *)
Definition whiteOpenFourBlackToMove : Board :=
  Eval vm_compute in
  playMoves sampleZobrist emptyBoard
    [(0,5); (1,0); (2,7); (2,0); (5,9); (3,0); (7,3); (4,0)].


(** An abort flag raised from the third poll on. *)
Definition abortAfterTwo : ThreatSearchLimits :=
  mkLimits 200000 20 (Some (fun polls => 2 <=? polls)).

(** Node budgets of one and of three probes. *)
Definition oneNodeLimits : ThreatSearchLimits := mkLimits 1 20 None.
Definition threeNodesLimits : ThreatSearchLimits := mkLimits 3 20 None.

(** A node budget of zero. *)
Definition noNodesLimits : ThreatSearchLimits := mkLimits 0 20 None.

(* ------------------------------------------------------------------ *)
(** * Notions used to state the properties *)

(** The answer of [isImmediateWinningMove] alone. *)
Definition winsAt (zob : ZobristKeys) (b : Board) (attacker : Player)
    (m : Move) : bool :=
  fst (isImmediateWinningMove zob b m attacker).

(** The moves of the scan order at which [isImmediateWinningMove] answers
    true. *)
Definition winningMoves (zob : ZobristKeys) (b : Board) (attacker : Player)
  : list Move :=
  filter (winsAt zob b attacker) (collectLegalMoves b).

(** The loop stops at its [k]-th pass (counted from 0): the abort flag reads
    true there, or counting that pass takes [nodes] above [maxNodes]. *)
Definition stopsAt (limits : ThreatSearchLimits) (k : nat) : Prop :=
  abortRequested limits (Z.of_nat k) = true \/
  maxNodes limits < Z.of_nat k + 1.

(** The limits never stop a loop of [n] passes. *)
Definition neverStops (limits : ThreatSearchLimits) (n : nat) : Prop :=
  (forall k, (k < n)%nat -> abortRequested limits (Z.of_nat k) = false) /\
  Z.of_nat n <= maxNodes limits.

(** A stone of [attacker] on the cell of [m], a free cell of the board,
    gives [attacker] five in a row. *)
Definition winsWithStone (zob : ZobristKeys) (b : Board) (attacker : Player)
    (m : Move) : bool :=
  let '(ok, b') := placeStone zob b (Move.x m) (Move.y m) attacker in
  ok && checkWin b' attacker.

(** [attacker] has five in a row or a legal move that creates it. *)
Definition canWinAtOnce (zob : ZobristKeys) (b : Board) (attacker : Player)
  : bool :=
  if checkWin b attacker then true
  else match find (winsWithStone zob b attacker) (getLegalMoves b) with
       | Some _ => true
       | None => false
       end.

(** A stone of [defender] on the cell of [m] leaves the opponent with
    neither five in a row nor a move that creates it. *)
Definition refutes (zob : ZobristKeys) (b : Board) (defender : Player)
    (m : Move) : bool :=
  let '(ok, b') := placeStone zob b (Move.x m) (Move.y m) defender in
  ok && negb (canWinAtOnce zob b' (otherPlayer defender)).

(** The legal moves of the defender that refute every immediate win of the
    opponent. *)
Definition universalRefutations (zob : ZobristKeys) (b : Board)
    (defender : Player) : list Move :=
  filter (refutes zob b defender) (getLegalMoves b).

(** [a < b] in row-major order: by [y], then by [x]. *)
Definition rowMajorBefore (a b : Move) : Prop :=
  Move.y a < Move.y b \/ (Move.y a = Move.y b /\ Move.x a < Move.x b).

(** [a < b] in column-major order: by [x], then by [y]. *)
Definition columnMajorBefore (a b : Move) : Prop :=
  Move.x a < Move.x b \/ (Move.x a = Move.x b /\ Move.y a < Move.y b).

(* ------------------------------------------------------------------ *)
(** * Facts about the bitboard layout *)

Section BitFacts.

Lemma mask_bit (o n : Z) :
  0 <= o -> 0 <= n -> Z.testbit (Z.shiftl 1 o) n = (n =? o).
Proof.
  intros Ho Hn. rewrite Z.shiftl_1_l, Z.pow2_bits_eqb by assumption.
  apply Z.eqb_sym.
Qed.

Lemma ldiff_lor_mask (w o : Z) :
  0 <= o -> Z.testbit w o = false ->
  Z.ldiff (Z.lor w (Z.shiftl 1 o)) (Z.shiftl 1 o) = w.
Proof.
  intros Ho Hbit. apply Z.bits_inj'. intros n Hn.
  rewrite Z.ldiff_spec, Z.lor_spec, mask_bit by assumption.
  destruct (Z.eqb_spec n o) as [-> | _].
  - rewrite Hbit. reflexivity.
  - now rewrite orb_false_r, andb_true_r.
Qed.

Lemma offsetOf_range (idx : Z) : 0 <= offsetOf idx < 64.
Proof.
  unfold offsetOf. change 63 with (Z.ones 6).
  rewrite Z.land_ones by lia. apply Z.mod_pos_bound. reflexivity.
Qed.

Lemma chunk_offset_decompose (idx : Z) :
  idx = 64 * chunkOf idx + offsetOf idx.
Proof.
  unfold chunkOf, offsetOf. change 63 with (Z.ones 6).
  rewrite Z.land_ones, Z.shiftr_div_pow2 by lia.
  change (2 ^ 6) with 64. apply Z.div_mod. lia.
Qed.

Lemma inBounds_iff (x y : Z) :
  inBounds x y = true <-> 0 <= x < 12 /\ 0 <= y < 12.
Proof.
  unfold inBounds, kBoardSize.
  rewrite !andb_true_iff, !Z.leb_le, !Z.ltb_lt. lia.
Qed.

Lemma chunkOf_index_range (x y : Z) :
  inBounds x y = true -> 0 <= chunkOf (index x y) <= 2.
Proof.
  intros H. apply inBounds_iff in H.
  pose proof (chunk_offset_decompose (index x y)) as D.
  pose proof (offsetOf_range (index x y)) as R.
  unfold index, kBoardSize in *. lia.
Qed.

Lemma same_cell_iff (x y x' y' : Z) :
  inBounds x y = true -> inBounds x' y' = true ->
  (chunkOf (index x y) = chunkOf (index x' y') /\
   offsetOf (index x y) = offsetOf (index x' y')) <-> (x = x' /\ y = y').
Proof.
  intros H H'. apply inBounds_iff in H. apply inBounds_iff in H'.
  split.
  - intros [Hc Ho].
    pose proof (chunk_offset_decompose (index x y)) as D.
    pose proof (chunk_offset_decompose (index x' y')) as D'.
    rewrite Hc, Ho in D. rewrite <- D' in D.
    unfold index, kBoardSize in D. lia.
  - intros [-> ->]. split; reflexivity.
Qed.

Lemma getWord_setWord (bb : Bitboard) (c c' v : Z) :
  0 <= c <= 2 ->
  getWord (setWord bb c v) c' = if c' =? c then v else getWord bb c'.
Proof.
  intros Hc. unfold getWord, setWord.
  destruct (Z.eqb_spec c 0) as [-> | n0]; simpl.
  { destruct (Z.eqb_spec c' 0); reflexivity. }
  destruct (Z.eqb_spec c 1) as [-> | n1]; simpl.
  { destruct (Z.eqb_spec c' 0) as [-> | ?]; [reflexivity | ].
    destruct (Z.eqb_spec c' 1); reflexivity. }
  destruct (Z.eqb_spec c 2) as [-> | n2]; simpl; [ | lia ].
  destruct (Z.eqb_spec c' 0) as [-> | ?]; [reflexivity | ].
  destruct (Z.eqb_spec c' 1) as [-> | ?]; [reflexivity | ].
  destruct (Z.eqb_spec c' 2); reflexivity.
Qed.

Lemma setWord_setWord_get (bb : Bitboard) (c v : Z) :
  setWord (setWord bb c v) c (getWord bb c) = bb.
Proof.
  destruct bb as [a0 a1 a2]. unfold setWord, getWord; simpl.
  destruct (Z.eqb_spec c 0) as [-> | ?]; simpl; [reflexivity | ].
  destruct (Z.eqb_spec c 1) as [-> | ?]; simpl; [reflexivity | ].
  destruct (Z.eqb_spec c 2) as [-> | ?]; simpl; reflexivity.
Qed.

Lemma setWord_twice (bb : Bitboard) (c v v' : Z) :
  setWord (setWord bb c v) c v' = setWord bb c v'.
Proof.
  destruct bb as [a0 a1 a2]. unfold setWord; simpl.
  destruct (Z.eqb_spec c 0) as [-> | ?]; simpl; [reflexivity | ].
  destruct (Z.eqb_spec c 1) as [-> | ?]; simpl; [reflexivity | ].
  destruct (Z.eqb_spec c 2) as [-> | ?]; simpl; reflexivity.
Qed.

Lemma bb_set_bb (b : Board) (p q : Player) (v : Bitboard) :
  bb_ (set_bb b p v) q = if Player_eqb p q then v else bb_ b q.
Proof. destruct p, q; reflexivity. Qed.

Lemma otherPlayer_involutive (p : Player) : otherPlayer (otherPlayer p) = p.
Proof. destruct p; reflexivity. Qed.

Lemma otherPlayer_neq (p : Player) : Player_eqb (otherPlayer p) p = false.
Proof. destruct p; reflexivity. Qed.

(** A stone put on a cell shows on that cell, for that colour, and nowhere
    else. *)
Lemma hasStone_putStone (b : Board) (p q : Player) (x y x' y' : Z) :
  inBounds x y = true -> inBounds x' y' = true ->
  hasStone (putStone b p x y) q x' y' =
  hasStone b q x' y' || (Player_eqb p q && (x' =? x) && (y' =? y)).
Proof.
  intros H H'. unfold hasStone, putStone. rewrite bb_set_bb.
  destruct (Player_eqb p q) eqn:Epq; simpl.
  2:{ now rewrite orb_false_r. }
  assert (p = q) by (destruct p, q; simpl in Epq; congruence). subst q.
  rewrite getWord_setWord by (apply chunkOf_index_range; assumption).
  pose proof (same_cell_iff x y x' y' H H') as S.
  pose proof (offsetOf_range (index x y)) as R.
  pose proof (offsetOf_range (index x' y')) as R'.
  destruct (Z.eqb_spec (chunkOf (index x' y')) (chunkOf (index x y)))
    as [Ec | Nc].
  - rewrite Z.lor_spec, mask_bit by lia. rewrite Ec. f_equal.
    destruct (Z.eqb_spec (offsetOf (index x' y')) (offsetOf (index x y)))
      as [Eo | No].
    + destruct S as [S _]. destruct S as [-> ->]; [now split | ].
      now rewrite !Z.eqb_refl.
    + destruct (Z.eqb_spec x' x) as [-> | ?]; simpl; [ | reflexivity].
      destruct (Z.eqb_spec y' y) as [-> | ?]; simpl; [ | reflexivity].
      now contradiction No.
  - destruct (Z.eqb_spec x' x) as [-> | ?]; simpl;
      [ | now rewrite orb_false_r].
    destruct (Z.eqb_spec y' y) as [-> | ?]; simpl;
      [ | now rewrite orb_false_r].
    now contradiction Nc.
Qed.

(** Taking back a stone that was put on a free bit gives the board back. *)
Lemma dropStone_putStone (b : Board) (p : Player) (x y : Z) :
  hasStone b p x y = false ->
  dropStone (putStone b p x y) p x y = b.
Proof.
  intros Hfree. unfold hasStone in Hfree.
  pose proof (offsetOf_range (index x y)) as R.
  assert (Hbb : forall bb,
    Z.testbit (getWord bb (chunkOf (index x y))) (offsetOf (index x y))
      = false ->
    let c := chunkOf (index x y) in
    let bb1 := setWord bb c
        (Z.lor (getWord bb c) (Z.shiftl 1 (offsetOf (index x y)))) in
    setWord bb1 c
      (Z.ldiff (getWord bb1 c) (Z.shiftl 1 (offsetOf (index x y)))) = bb).
  { intros bb Hb c bb1. subst bb1.
    destruct (Z_le_dec 0 c) as [L | L];
      [ destruct (Z_le_dec c 2) as [U | U] | ].
    - rewrite getWord_setWord by lia. rewrite Z.eqb_refl.
      rewrite ldiff_lor_mask by (lia || exact Hb).
      apply setWord_setWord_get.
    - subst c. destruct bb as [a0 a1 a2]. unfold setWord, getWord; simpl.
      destruct (Z.eqb_spec (chunkOf (index x y)) 0); [lia | ].
      destruct (Z.eqb_spec (chunkOf (index x y)) 1); [lia | ].
      destruct (Z.eqb_spec (chunkOf (index x y)) 2); [lia | ]. simpl.
      destruct (Z.eqb_spec (chunkOf (index x y)) 0); [lia | ].
      destruct (Z.eqb_spec (chunkOf (index x y)) 1); [lia | ].
      destruct (Z.eqb_spec (chunkOf (index x y)) 2); [lia | ]. reflexivity.
    - subst c. destruct bb as [a0 a1 a2]. unfold setWord, getWord; simpl.
      destruct (Z.eqb_spec (chunkOf (index x y)) 0); [lia | ].
      destruct (Z.eqb_spec (chunkOf (index x y)) 1); [lia | ].
      destruct (Z.eqb_spec (chunkOf (index x y)) 2); [lia | ]. simpl.
      destruct (Z.eqb_spec (chunkOf (index x y)) 0); [lia | ].
      destruct (Z.eqb_spec (chunkOf (index x y)) 1); [lia | ].
      destruct (Z.eqb_spec (chunkOf (index x y)) 2); [lia | ]. reflexivity. }
  destruct b as [bB bW s h]. unfold dropStone, putStone.
  destruct p; simpl in *; rewrite Hbb by assumption; reflexivity.
Qed.

Lemma lxor_cancel (h c s : Z) :
  Z.lxor (Z.lxor (Z.lxor (Z.lxor h c) s) s) c = h.
Proof.
  rewrite (Z.lxor_assoc (Z.lxor h c) s s), Z.lxor_nilpotent, Z.lxor_0_r.
  rewrite Z.lxor_assoc, Z.lxor_nilpotent. apply Z.lxor_0_r.
Qed.

End BitFacts.

(* ------------------------------------------------------------------ *)
(** * Facts about the board operations *)

Section BoardFacts.
Variable zob : ZobristKeys.

Lemma makeMove_true (b b' : Board) (x y : Z) :
  makeMove zob b x y = (true, b') ->
  inBounds x y = true /\ isOccupied b x y = false /\
  b' = mkBoard (bbBlack (putStone b (side_to_move_ b) x y))
               (bbWhite (putStone b (side_to_move_ b) x y))
               (otherPlayer (side_to_move_ b))
               (Z.lxor (Z.lxor (hashKey_ b)
                               (zobristTable_ zob x y (side_to_move_ b)))
                       (zobristSide_ zob)).
Proof.
  unfold makeMove.
  destruct (inBounds x y); simpl; [ | discriminate].
  destruct (isOccupied b x y); [discriminate | ].
  intros E. injection E as <-. auto.
Qed.

Lemma makeMove_false (b b' : Board) (x y : Z) :
  makeMove zob b x y = (false, b') -> b' = b.
Proof.
  unfold makeMove.
  destruct (inBounds x y); simpl; [ | congruence].
  destruct (isOccupied b x y); [congruence | discriminate].
Qed.

Lemma makeMove_legal (b : Board) (x y : Z) :
  inBounds x y = true -> isOccupied b x y = false ->
  exists b', makeMove zob b x y = (true, b').
Proof.
  intros Hin Hocc. unfold makeMove. rewrite Hin, Hocc. simpl. eauto.
Qed.

Lemma isOccupied_false (b : Board) (x y : Z) :
  isOccupied b x y = false ->
  hasStone b Black x y = false /\ hasStone b White x y = false.
Proof. unfold isOccupied. apply orb_false_elim. Qed.

(** The bitboards of a board with another side and hash carry the same
    stones. *)
Lemma hasStone_ignores_side_hash (b : Board) (s : Player) (h : Z)
    (p : Player) (x y : Z) :
  hasStone (mkBoard (bbBlack b) (bbWhite b) s h) p x y = hasStone b p x y.
Proof. destruct p; reflexivity. Qed.

Lemma dropStone_ignores_side_hash (b : Board) (s : Player) (h : Z)
    (p : Player) (x y : Z) :
  dropStone (mkBoard (bbBlack b) (bbWhite b) s h) p x y =
  mkBoard (bbBlack (dropStone b p x y)) (bbWhite (dropStone b p x y)) s h.
Proof. destruct p; reflexivity. Qed.

(** [unmakeMove] undoes the [makeMove] that went before it: occupancy,
    side to move and hash are all back. *)
Lemma unmakeMove_makeMove (b b' : Board) (x y : Z) :
  makeMove zob b x y = (true, b') ->
  unmakeMove zob b' x y = (true, b).
Proof.
  intros E. apply makeMove_true in E. destruct E as (Hin & Hocc & ->).
  apply isOccupied_false in Hocc.
  assert (Hfree : hasStone b (side_to_move_ b) x y = false)
    by (destruct (side_to_move_ b); tauto).
  unfold unmakeMove. cbn [side_to_move_ hashKey_].
  rewrite otherPlayer_involutive, Hin. cbn [negb].
  rewrite hasStone_ignores_side_hash, hasStone_putStone by assumption.
  assert (Hp : Player_eqb (side_to_move_ b) (side_to_move_ b) = true)
    by (destruct (side_to_move_ b); reflexivity).
  rewrite Hp, !Z.eqb_refl, orb_true_r. cbn [negb].
  rewrite dropStone_ignores_side_hash, dropStone_putStone by assumption.
  rewrite lxor_cancel. destruct b; reflexivity.
Qed.

Lemma in_coords_iff (v : Z) : In v coords <-> 0 <= v < 12.
Proof. unfold coords. simpl. lia. Qed.

Lemma in_allCells_iff (m : Move) :
  In m allCells <-> inBounds (Move.x m) (Move.y m) = true.
Proof.
  rewrite inBounds_iff. unfold allCells. rewrite in_flat_map. split.
  - intros (yy & Hy & Hm). apply in_map_iff in Hm.
    destruct Hm as (xx & <- & Hx). simpl.
    apply in_coords_iff in Hy. apply in_coords_iff in Hx. lia.
  - intros [Hx Hy]. exists (Move.y m). split; [now apply in_coords_iff | ].
    apply in_map_iff. exists (Move.x m).
    split; [now destruct m | now apply in_coords_iff].
Qed.

(** The legal moves are the empty cells of the board. *)
Lemma in_getLegalMoves_iff (b : Board) (m : Move) :
  In m (getLegalMoves b) <->
  inBounds (Move.x m) (Move.y m) = true /\
  isOccupied b (Move.x m) (Move.y m) = false.
Proof.
  unfold getLegalMoves. rewrite filter_In, in_allCells_iff, negb_true_iff.
  reflexivity.
Qed.

Lemma in_insertBy (less : Move -> Move -> bool) (m a : Move) (l : list Move) :
  In a (insertBy less m l) <-> a = m \/ In a l.
Proof.
  induction l as [ | h t IH]; simpl.
  - intuition congruence.
  - destruct (less m h); simpl; [intuition congruence | ].
    rewrite IH. intuition congruence.
Qed.

(** Sorting keeps the elements. *)
Lemma in_sortBy (less : Move -> Move -> bool) (a : Move) (l : list Move) :
  In a (sortBy less l) <-> In a l.
Proof.
  induction l as [ | h t IH]; simpl; [reflexivity | ].
  rewrite in_insertBy, IH. intuition congruence.
Qed.

Lemma in_collectLegalMoves_iff (b : Board) (m : Move) :
  In m (collectLegalMoves b) <-> In m (getLegalMoves b).
Proof. apply in_sortBy. Qed.

Lemma rowMajorLess_iff (a b : Move) :
  rowMajorLess a b = true <-> rowMajorBefore a b.
Proof.
  unfold rowMajorLess, rowMajorBefore.
  destruct (Z.eqb_spec (Move.y a) (Move.y b)); rewrite Z.ltb_lt; lia.
Qed.

Lemma allCells_row_major :
  StronglySorted (fun a b => rowMajorLess a b = true) allCells.
Proof.
  apply Sorted_StronglySorted.
  - intros a b c Hab Hbc. apply rowMajorLess_iff in Hab, Hbc.
    apply rowMajorLess_iff. unfold rowMajorBefore in *. lia.
  - unfold allCells, coords. simpl. repeat constructor.
Qed.

Lemma StronglySorted_filter {A : Type} (R : A -> A -> Prop)
    (f : A -> bool) (l : list A) :
  StronglySorted R l -> StronglySorted R (filter f l).
Proof.
  induction 1 as [ | a l Hl IH Ha]; simpl; [constructor | ].
  destruct (f a); [ | exact IH]. constructor; [exact IH | ].
  apply Forall_forall. intros x Hx. apply filter_In in Hx.
  rewrite Forall_forall in Ha. now apply Ha.
Qed.

(** Sorting a list that is in row-major order already gives it back. *)
Lemma sortBy_row_major (l : list Move) :
  StronglySorted (fun a b => rowMajorLess a b = true) l ->
  sortBy rowMajorLess l = l.
Proof.
  induction 1 as [ | a l Hl IH Ha]; simpl; [reflexivity | ].
  rewrite IH. destruct l as [ | h t]; simpl; [reflexivity | ].
  inversion Ha as [ | ? ? Hah _]; subst. now rewrite Hah.
Qed.

(** The legal moves come in row-major order, so the scan order of the
    solver is the order of [getLegalMoves]. *)
Lemma collectLegalMoves_row_major (b : Board) :
  collectLegalMoves b = getLegalMoves b.
Proof.
  apply sortBy_row_major. apply StronglySorted_filter.
  exact allCells_row_major.
Qed.

End BoardFacts.

(* ------------------------------------------------------------------ *)
(** * Facts about the solver's building blocks *)

Section SolverFacts.
Variable zob : ZobristKeys.

(** The probe leaves the board it is given as it found it. *)
Lemma isImmediateWinningMove_board (b : Board) (m : Move) (a : Player) :
  snd (isImmediateWinningMove zob b m a) = b.
Proof.
  unfold isImmediateWinningMove.
  destruct (isOccupied b (Move.x m) (Move.y m)); [reflexivity | ].
  destruct (makeMove zob b (Move.x m) (Move.y m)) as [ok b1] eqn:E.
  destruct ok; simpl.
  - rewrite (unmakeMove_makeMove zob b b1 _ _ E). reflexivity.
  - now apply makeMove_false in E.
Qed.

Lemma isImmediateWinningMove_eq (b : Board) (m : Move) (a : Player) :
  isImmediateWinningMove zob b m a = (winsAt zob b a m, b).
Proof.
  unfold winsAt. rewrite <- (isImmediateWinningMove_board b m a) at 3.
  apply surjective_pairing.
Qed.

(** The probe answers true exactly when [makeMove] accepts the move and the
    attacker has five in a row on the board it leaves. *)
Lemma winsAt_iff (b : Board) (a : Player) (m : Move) :
  winsAt zob b a m = true <->
  exists b', makeMove zob b (Move.x m) (Move.y m) = (true, b') /\
             checkWin b' a = true.
Proof.
  unfold winsAt, isImmediateWinningMove. split.
  - destruct (isOccupied b (Move.x m) (Move.y m)); [discriminate | ].
    destruct (makeMove zob b (Move.x m) (Move.y m)) as [ok b1] eqn:E.
    destruct ok; simpl; [ | discriminate].
    rewrite (unmakeMove_makeMove zob b b1 _ _ E). simpl. eauto.
  - intros (b' & E & W). pose proof (makeMove_true zob _ _ _ _ E) as (_ & O & _).
    rewrite O, E. simpl.
    rewrite (unmakeMove_makeMove zob b b' _ _ E). exact W.
Qed.

Lemma threatLoop_existsb (p : Player) (legal : list Move) (b : Board) :
  threatLoop zob p legal b = existsb (winsAt zob b p) legal.
Proof.
  induction legal as [ | m rest IH]; simpl; [reflexivity | ].
  rewrite isImmediateWinningMove_eq.
  destruct (winsAt zob b p m); simpl; [reflexivity | apply IH].
Qed.

Lemma collectLoop_filter (p : Player) (legal : list Move) (b : Board)
    (out : list ThreatInstance) :
  collectLoop zob p legal b out =
  out ++ map (fiveThreat p) (filter (winsAt zob b p) legal).
Proof.
  revert out. induction legal as [ | m rest IH]; intros out; simpl.
  - now rewrite app_nil_r.
  - rewrite isImmediateWinningMove_eq.
    destruct (winsAt zob b p m); simpl; rewrite IH.
    + now rewrite <- app_assoc.
    + reflexivity.
Qed.

Lemma findLoop_some (a : Player) (limits : ThreatSearchLimits)
    (legal : list Move) (b : Board) (n : Z) (seq : ThreatSequence) :
  findLoop zob a limits legal b n = Some seq ->
  exists m, In m legal /\ winsAt zob b a m = true /\ seq = fiveSequence a m.
Proof.
  revert n. induction legal as [ | m rest IH]; intros n; simpl;
    [discriminate | ].
  destruct (abortRequested limits n); [discriminate | ].
  destruct (n + 1 >? maxNodes limits); [discriminate | ].
  rewrite isImmediateWinningMove_eq.
  destruct (winsAt zob b a m) eqn:W.
  - intros E. injection E as <-. exists m. auto.
  - intros E. destruct (IH _ E) as (m' & Hin & Hw & Hs). exists m'. auto.
Qed.

(** A stop met before any probed move has answered true ends the loop with
    [return false]. *)
Lemma findLoop_stop (a : Player) (limits : ThreatSearchLimits)
    (legal : list Move) (b : Board) (n k : nat) :
  (k < length legal)%nat ->
  forallb (fun m => negb (winsAt zob b a m)) (firstn k legal) = true ->
  stopsAt limits (n + k) ->
  findLoop zob a limits legal b (Z.of_nat n) = None.
Proof.
  revert n k. induction legal as [ | m rest IH]; intros n k Hk Hno Hstop;
    simpl in Hk; [lia | ].
  simpl. destruct (abortRequested limits (Z.of_nat n)) eqn:A;
    [reflexivity | ].
  destruct (Z.gtb_spec (Z.of_nat n + 1) (maxNodes limits)) as [G | G];
    [reflexivity | ].
  rewrite isImmediateWinningMove_eq.
  destruct k as [ | k].
  - exfalso. rewrite Nat.add_0_r in Hstop. destruct Hstop as [S | S].
    + congruence.
    + lia.
  - simpl in Hno. apply andb_true_iff in Hno. destruct Hno as [Hm Hrest].
    apply negb_true_iff in Hm. rewrite Hm.
    replace (Z.of_nat n + 1) with (Z.of_nat (S n)) by lia.
    apply (IH (S n) k); [lia | assumption | ].
    now replace (S n + k)%nat with (n + S k)%nat by lia.
Qed.

(** Where the search loop ends with [return false], the defence loop, run
    under the same limits, has recorded no move. *)
Lemma defenseLoop_of_findLoop_none (a : Player) (limits : ThreatSearchLimits)
    (legal : list Move) (b : Board) (n : Z) (r : DefensiveSet) :
  findLoop zob a limits legal b n = None ->
  defenseLoop zob a limits legal b n r = Return r \/
  defenseLoop zob a limits legal b n r = Continue r.
Proof.
  revert n. induction legal as [ | m rest IH]; intros n; simpl; [auto | ].
  destruct (abortRequested limits n); [auto | ].
  destruct (n + 1 >? maxNodes limits); [auto | ].
  rewrite isImmediateWinningMove_eq.
  destruct (winsAt zob b a m); [discriminate | ]. apply IH.
Qed.

(** Under limits that never stop it, the defence loop records the moves at
    which the probe answers true, in scan order. *)
Lemma defenseLoop_complete (a : Player) (limits : ThreatSearchLimits)
    (legal : list Move) (b : Board) (n : nat) (r : DefensiveSet) :
  neverStops limits (n + length legal) ->
  defenseLoop zob a limits legal b (Z.of_nat n) r =
  Continue (mkDefensiveSet (isLost r)
              (defensiveMoves r ++ filter (winsAt zob b a) legal)).
Proof.
  revert n r. induction legal as [ | m rest IH]; intros n r [Hab Hmax]; simpl.
  - rewrite app_nil_r. now destruct r.
  - simpl in Hab, Hmax. rewrite Hab by lia.
    destruct (Z.gtb_spec (Z.of_nat n + 1) (maxNodes limits)) as [G | G];
      [lia | ].
    rewrite isImmediateWinningMove_eq.
    replace (Z.of_nat n + 1) with (Z.of_nat (S n)) by lia.
    rewrite IH.
    2:{ split; [intros k Hk; apply Hab | ]; lia. }
    destruct (winsAt zob b a m); simpl; [ | reflexivity].
    now rewrite <- app_assoc.
Qed.

(** Under limits that never stop it, the search loop finds the first move
    at which the probe answers true. *)
Lemma findLoop_complete (a : Player) (limits : ThreatSearchLimits)
    (legal : list Move) (b : Board) (n : nat) :
  neverStops limits (n + length legal) ->
  findLoop zob a limits legal b (Z.of_nat n) =
  match filter (winsAt zob b a) legal with
  | [] => None
  | m :: _ => Some (fiveSequence a m)
  end.
Proof.
  revert n. induction legal as [ | m rest IH]; intros n [Hab Hmax]; simpl;
    [reflexivity | ].
  simpl in Hab, Hmax. rewrite Hab by lia.
  destruct (Z.gtb_spec (Z.of_nat n + 1) (maxNodes limits)) as [G | G];
    [lia | ].
  rewrite isImmediateWinningMove_eq.
  destruct (winsAt zob b a m); [reflexivity | ].
  replace (Z.of_nat n + 1) with (Z.of_nat (S n)) by lia.
  apply IH. split; [intros k Hk; apply Hab | ]; lia.
Qed.

End SolverFacts.

(* ------------------------------------------------------------------ *)
(** * Move ordering (core/board.h) *)

(** C6, as amended: [Move::operator<] is a strict total order in
    column-major form: [a < b] holds exactly when [a.x < b.x], or
    [a.x == b.x] and [a.y < b.y]; it is irreflexive, transitive and
    compares any two distinct moves.  The row-major order (by [y], then by
    [x]) is the one of the comparator that [collectLegalMoves] hands to
    [std::sort]. *)
Theorem Move_ltb_column_major :
  (forall a b, Move.ltb a b = true <-> columnMajorBefore a b) /\
  (forall a, Move.ltb a a = false) /\
  (forall a b c,
      Move.ltb a b = true -> Move.ltb b c = true -> Move.ltb a c = true) /\
  (forall a b, a = b \/ Move.ltb a b = true \/ Move.ltb b a = true) /\
  (forall a b, rowMajorLess a b = true <-> rowMajorBefore a b).
Proof.
  assert (Hspec : forall a b, Move.ltb a b = true <-> columnMajorBefore a b).
  { intros a b. unfold Move.ltb, columnMajorBefore.
    rewrite orb_true_iff, andb_true_iff, !Z.ltb_lt, Z.eqb_eq. reflexivity. }
  split; [exact Hspec | ]. split; [ | split; [ | split]].
  - intros a. destruct (Move.ltb a a) eqn:E; [ | reflexivity].
    apply Hspec in E. unfold columnMajorBefore in E. lia.
  - intros a b c Hab Hbc. apply Hspec in Hab, Hbc. apply Hspec.
    unfold columnMajorBefore in *. lia.
  - intros [ax ay] [bx by_]. rewrite !Hspec. unfold columnMajorBefore. simpl.
    destruct (Z.eq_dec ax bx) as [-> | ?]; [ | right; lia].
    destruct (Z.eq_dec ay by_) as [-> | ?]; [now left | right; lia].
  - intros a b. unfold rowMajorLess, rowMajorBefore.
    destruct (Z.eqb_spec (Move.y a) (Move.y b)) as [E | N];
      rewrite Z.ltb_lt; lia.
Qed.

(** The order applied to three moves of one column and the next. *)
Lemma Move_ltb_column_major_witness :
  Move.ltb (Move.mk 0 1) (Move.mk 0 7) = true /\
  Move.ltb (Move.mk 0 7) (Move.mk 1 0) = true /\
  Move.ltb (Move.mk 0 1) (Move.mk 1 0) = true.
Proof.
  split; [reflexivity | split; [reflexivity | ] ].
  exact (proj1 (proj2 (proj2 Move_ltb_column_major))
           (Move.mk 0 1) (Move.mk 0 7) (Move.mk 1 0) eq_refl eq_refl).
Defined.

(** C6, as stated, fails: (0,1) and (1,0) are distinct, [operator<] puts
    (0,1) first, row-major order puts (1,0) first. *)
Lemma Move_ltb_row_major_counterexample :
  ~ (forall a b : Move,
        a <> b -> (Move.ltb a b = true <-> rowMajorBefore a b)).
Proof.
  intros H.
  assert (N : Move.mk 0 1 <> Move.mk 1 0) by discriminate.
  destruct (H (Move.mk 0 1) (Move.mk 1 0) N) as [H1 _].
  specialize (H1 eq_refl). unfold rowMajorBefore in H1. simpl in H1. lia.
Qed.

(* ------------------------------------------------------------------ *)
(** * Board::makeMove *)

(** C7: [makeMove(x, y)] returns false and leaves the board (occupancy,
    side to move, hash) as it is when [(x, y)] is out of range or the cell
    is occupied; otherwise it returns true, the cell carries the stone of
    the side that was to move, every other cell is as before, the side to
    move is flipped and the hash is the old hash XOR the placed-stone
    constant XOR the side constant. *)
Theorem makeMove_contract (zob : ZobristKeys) (b : Board) (x y : Z) :
  (inBounds x y = false \/ isOccupied b x y = true ->
   makeMove zob b x y = (false, b)) /\
  (inBounds x y = true -> isOccupied b x y = false ->
   exists b',
     makeMove zob b x y = (true, b') /\
     getCellState b' x y = stoneOf (sideToMove b) /\
     (forall x' y', inBounds x' y' = true -> (x', y') <> (x, y) ->
                    getCellState b' x' y' = getCellState b x' y') /\
     sideToMove b' = otherPlayer (sideToMove b) /\
     getHashKey b' =
       Z.lxor (Z.lxor (getHashKey b) (zobristTable_ zob x y (sideToMove b)))
              (zobristSide_ zob)).
Proof.
  split.
  - intros H. unfold makeMove. destruct (inBounds x y); simpl;
      [ | reflexivity].
    destruct H as [H | H]; [discriminate | now rewrite H].
  - intros Hin Hocc. destruct (makeMove_legal zob b x y Hin Hocc) as [b' E].
    exists b'. split; [exact E | ].
    apply makeMove_true in E. destruct E as (_ & _ & ->).
    apply isOccupied_false in Hocc. destruct Hocc as [HB HW].
    unfold getCellState, sideToMove, getHashKey. cbn [side_to_move_ hashKey_].
    repeat split.
    + rewrite !hasStone_ignores_side_hash, !hasStone_putStone by assumption.
      rewrite HB, HW, !Z.eqb_refl.
      destruct (side_to_move_ b); reflexivity.
    + intros x' y' Hin' Hne.
      rewrite !hasStone_ignores_side_hash, !hasStone_putStone by assumption.
      assert (Hcell : (x' =? x) && (y' =? y) = false).
      { destruct (Z.eqb_spec x' x) as [-> | ?]; [ | reflexivity].
        destruct (Z.eqb_spec y' y) as [-> | ?]; [ | reflexivity].
        now contradiction Hne. }
      rewrite <- !andb_assoc, Hcell, !andb_false_r, !orb_false_r.
      reflexivity.
Qed.

(** The contract on the empty board: (12,0) is refused, (3,4) receives the
    first black stone. *)
Lemma makeMove_contract_witness :
  makeMove sampleZobrist emptyBoard 12 0 = (false, emptyBoard) /\
  exists b',
    makeMove sampleZobrist emptyBoard 3 4 = (true, b') /\
    getCellState b' 3 4 = 1 /\
    sideToMove b' = White.
Proof.
  split.
  - apply (proj1 (makeMove_contract sampleZobrist emptyBoard 12 0)).
    left. reflexivity.
  - destruct (proj2 (makeMove_contract sampleZobrist emptyBoard 3 4)
                eq_refl eq_refl) as (b' & E & Hc & _ & Hs & _).
    exists b'. split; [exact E | split; [exact Hc | exact Hs] ].
Defined.

(* ------------------------------------------------------------------ *)
(** * Transposition-table score encoding *)

Lemma wrapInt_small (z : Z) : - 2 ^ 31 <= z < 2 ^ 31 -> wrapInt z = z.
Proof. intros H. unfold wrapInt. rewrite Z.mod_small; lia. Qed.

(** C8: for every valid mate score [s] and ply distance [d],
    [fromTTScore (toTTScore s d) d = s]: [toTTScore] takes [d] off a winning
    mate score and adds it to a losing one, [fromTTScore] does the reverse;
    an ordinary score passes through both unchanged. *)
Theorem fromTTScore_toTTScore (mateThreshold s d : Z) :
  (validMateScore mateThreshold s d ->
   (0 < s -> toTTScore mateThreshold s d = s - d) /\
   (s < 0 -> toTTScore mateThreshold s d = s + d) /\
   fromTTScore mateThreshold (toTTScore mateThreshold s d) d = s) /\
  (ordinaryScore mateThreshold s ->
   toTTScore mateThreshold s d = s /\
   fromTTScore mateThreshold s d = s /\
   fromTTScore mateThreshold (toTTScore mateThreshold s d) d = s).
Proof.
  unfold validMateScore, ordinaryScore, INT_MAX. split.
  - intros (HT & Hd & Hlo & Hhi).
    assert (Hi : 2 ^ 31 = 2147483648) by reflexivity.
    unfold toTTScore, fromTTScore.
    destruct (Z.leb_spec mateThreshold s) as [W | W].
    + rewrite (wrapInt_small (s - d)) by lia.
      destruct (Z.leb_spec mateThreshold (s - d)) as [W' | W']; [ | lia].
      rewrite wrapInt_small by lia. repeat split; lia.
    + destruct (Z.leb_spec s (- mateThreshold)) as [L | L]; [ | lia].
      rewrite (wrapInt_small (s + d)) by lia.
      destruct (Z.leb_spec mateThreshold (s + d)) as [W' | W']; [lia | ].
      destruct (Z.leb_spec (s + d) (- mateThreshold)) as [L' | L']; [ | lia].
      rewrite wrapInt_small by lia. repeat split; lia.
  - intros [Hlo Hhi]. unfold toTTScore, fromTTScore.
    destruct (Z.leb_spec mateThreshold s) as [W | W]; [lia | ].
    destruct (Z.leb_spec s (- mateThreshold)) as [L | L]; [lia | ].
    destruct (Z.leb_spec mateThreshold s) as [W' | W']; [lia | ].
    destruct (Z.leb_spec s (- mateThreshold)) as [L' | L']; [lia | ].
    auto.
Qed.

(** The round trip of a win found 3 plies deep, stored 2 plies from the
    root, with scores from [kMateScore - 1000] on counted as mates. *)
Lemma fromTTScore_toTTScore_witness :
  fromTTScore (kMateScore - 1000)
    (toTTScore (kMateScore - 1000) (kMateScore - 3) 2) 2 = kMateScore - 3.
Proof.
  apply (proj1 (fromTTScore_toTTScore (kMateScore - 1000) (kMateScore - 3) 2)).
  unfold validMateScore. vm_compute. intuition discriminate.
Defined.

(* ------------------------------------------------------------------ *)
(** * Raw threat queries (threat_solver_state.cpp) *)

(** C10: whatever the board, attacker, move and direction, [getThreatAt]
    returns [ThreatType::None], and [getThreatsAt] leaves in its output
    vector exactly four entries, one per direction, all [None]. *)
Theorem getThreatAt_always_none (impl : Impl) (attacker : Player)
    (move : Move) (direction : Direction) (out : list ThreatType) :
  getThreatAt impl attacker move direction = None_ /\
  getThreatsAt impl attacker move out = [None_; None_; None_; None_].
Proof. split; reflexivity. Qed.

(* ------------------------------------------------------------------ *)
(** * Immediate wins (threat_solver_analysis.cpp) *)

(** [hasImmediateWinningThreat(attacker)] returns true if and only if
    the attacker already has five in a row on the board, or there is a
    legal move (an empty cell of the board) which, played with [makeMove],
    that is with the stone of the side to move, leaves a board on which
    the attacker has five in a row. *)
Theorem hasImmediateWinningThreat_iff (zob : ZobristKeys) (b : Board)
    (attacker : Player) :
  hasImmediateWinningThreat zob (newImpl b) attacker = true <->
  checkWin b attacker = true \/
  exists m b',
    In m (getLegalMoves b) /\
    makeMove zob b (Move.x m) (Move.y m) = (true, b') /\
    checkWin b' attacker = true.
Proof.
  unfold hasImmediateWinningThreat, newImpl. cbn [rootBoard].
  destruct (checkWin b attacker) eqn:W.
  - split; auto.
  - rewrite threatLoop_existsb, existsb_exists. split.
    + intros (m & Hin & Hw). right.
      apply in_collectLegalMoves_iff in Hin.
      apply winsAt_iff in Hw. destruct Hw as (b' & E & C).
      exists m, b'. auto.
    + intros [H | (m & b' & Hin & E & C)]; [discriminate | ].
      exists m. split; [now apply in_collectLegalMoves_iff | ].
      apply winsAt_iff. eauto.
Qed.

(** With no board attached the query answers false. *)
Lemma hasImmediateWinningThreat_no_board (zob : ZobristKeys) (p : Player) :
  hasImmediateWinningThreat zob (mkImpl None) p = false.
Proof. reflexivity. Qed.

(** C9: whenever [findWinningThreatSequence] returns true, the defender
    moves of the sequence are empty and its attacker moves hold at most one
    move: none exactly when the attacker already has five in a row on the
    board, and otherwise a single legal move after which the attacker has
    five in a row. *)
Theorem findWinningThreatSequence_shape (zob : ZobristKeys) (impl : Impl)
    (attacker : Player) (outSequence seq : ThreatSequence)
    (limits : ThreatSearchLimits) :
  findWinningThreatSequence zob impl attacker outSequence limits
    = (true, seq) ->
  exists b,
    rootBoard impl = Some b /\
    ThreatSequence.defenderMoves seq = [] /\
    (length (ThreatSequence.attackerMoves seq) <= 1)%nat /\
    (ThreatSequence.attackerMoves seq = [] <-> checkWin b attacker = true) /\
    (checkWin b attacker = false ->
     exists m b',
       ThreatSequence.attackerMoves seq = [m] /\
       In m (getLegalMoves b) /\
       makeMove zob b (Move.x m) (Move.y m) = (true, b') /\
       checkWin b' attacker = true).
Proof.
  unfold findWinningThreatSequence.
  destruct (rootBoard impl) as [b | ]; [ | discriminate].
  intros H. exists b. split; [reflexivity | ].
  destruct (checkWin b attacker) eqn:W.
  - injection H as <-. simpl. repeat split; auto. discriminate.
  - destruct (findLoop zob attacker limits (collectLegalMoves b) b 0)
      as [s | ] eqn:L; [ | discriminate].
    injection H as <-.
    apply findLoop_some in L. destruct L as (m & Hin & Hw & ->).
    simpl. repeat split; auto; try discriminate.
    intros _. apply in_collectLegalMoves_iff in Hin.
    apply winsAt_iff in Hw. destruct Hw as (b' & E & C).
    exists m, b'. auto.
Qed.

(** The sequence found for white on [whiteFourBoard]: the single move
    (4,0). *)
Lemma findWinningThreatSequence_shape_witness :
  exists b,
    rootBoard (newImpl whiteFourBoard) = Some b /\
    ThreatSequence.defenderMoves (fiveSequence White (Move.mk 4 0)) = [] /\
    (length (ThreatSequence.attackerMoves (fiveSequence White (Move.mk 4 0)))
       <= 1)%nat /\
    (ThreatSequence.attackerMoves (fiveSequence White (Move.mk 4 0)) = []
       <-> checkWin b White = true) /\
    (checkWin b White = false ->
     exists m b',
       ThreatSequence.attackerMoves (fiveSequence White (Move.mk 4 0)) = [m] /\
       In m (getLegalMoves b) /\
       makeMove sampleZobrist b (Move.x m) (Move.y m) = (true, b') /\
       checkWin b' White = true).
Proof.
  apply (findWinningThreatSequence_shape sampleZobrist
           (newImpl whiteFourBoard) White ThreatSequence.default
           (fiveSequence White (Move.mk 4 0)) defaultLimits).
  vm_compute. reflexivity.
Defined.

(* ------------------------------------------------------------------ *)
(** * Limits of the sequence search *)

(** C4: [findWinningThreatSequence] returns false, leaving [outSequence]
    alone, when the abort flag is set during the search or the count of
    explored branch points exceeds [limits.maxNodes]: at some pass [k] of
    the loop the caller's flag reads true, or counting that pass takes the
    count above [maxNodes], the attacker having no five on the board and
    no winning move among the [k] moves probed before.  Such a false does
    not say the position is safe: there are positions where the attacker
    wins at once and the call returns true without the flag and with the
    default budget, but false once the flag is raised, or once the budget
    is too small. *)
Theorem findWinningThreatSequence_inconclusive :
  (forall zob b attacker outSequence limits k,
      checkWin b attacker = false ->
      (k < length (collectLegalMoves b))%nat ->
      forallb (fun m => negb (fst (isImmediateWinningMove zob b m attacker)))
              (firstn k (collectLegalMoves b)) = true ->
      (exists flag, abortFlag limits = Some flag /\
                    flag (Z.of_nat k) = true) \/
      maxNodes limits < Z.of_nat k + 1 ->
      findWinningThreatSequence zob (newImpl b) attacker outSequence limits
        = (false, outSequence)) /\
  (exists zob b attacker outSequence flag,
      fst (findWinningThreatSequence zob (newImpl b) attacker outSequence
             (mkLimits 200000 20 (Some flag))) = false /\
      fst (findWinningThreatSequence zob (newImpl b) attacker outSequence
             (mkLimits 200000 20 None)) = true) /\
  (exists zob b attacker outSequence budget,
      fst (findWinningThreatSequence zob (newImpl b) attacker outSequence
             (mkLimits budget 20 None)) = false /\
      fst (findWinningThreatSequence zob (newImpl b) attacker outSequence
             (mkLimits 200000 20 None)) = true).
Proof.
  split; [ | split].
  - intros zob b attacker outSequence limits k W Hk Hno Hstop.
    unfold findWinningThreatSequence, newImpl. cbn [rootBoard]. rewrite W.
    change 0 with (Z.of_nat 0).
    rewrite (findLoop_stop zob attacker limits _ b 0 k Hk Hno);
      [reflexivity | ].
    unfold stopsAt, abortRequested. simpl.
    destruct Hstop as [(flag & -> & Hflag) | Hmax]; auto.
  - exists sampleZobrist, whiteMidFourBoard, White, ThreatSequence.default,
      (fun polls => 2 <=? polls).
    split; vm_compute; reflexivity.
  - exists sampleZobrist, blackFourBoard, Black, ThreatSequence.default, 0.
    split; vm_compute; reflexivity.
Qed.

(** Two stops that withhold a win.  On [whiteMidFourBoard] white wins at
    (2,0), the third legal move; with the flag raised from the third poll
    on, the search is aborted after (0,0) and (1,0).  On [blackFourBoard]
    black wins at (4,0), the first legal move; a budget of zero stops the
    search before it. *)
Lemma findWinningThreatSequence_inconclusive_witness :
  findWinningThreatSequence sampleZobrist (newImpl whiteMidFourBoard) White
    ThreatSequence.default abortAfterTwo = (false, ThreatSequence.default) /\
  findWinningThreatSequence sampleZobrist (newImpl blackFourBoard) Black
    ThreatSequence.default noNodesLimits = (false, ThreatSequence.default).
Proof.
  split.
  - apply (proj1 findWinningThreatSequence_inconclusive sampleZobrist
             whiteMidFourBoard White ThreatSequence.default abortAfterTwo
             2%nat).
    + vm_compute. reflexivity.
    + vm_compute. lia.
    + vm_compute. reflexivity.
    + left. exists (fun polls => 2 <=? polls). split; reflexivity.
  - apply (proj1 findWinningThreatSequence_inconclusive sampleZobrist
             blackFourBoard Black ThreatSequence.default noNodesLimits 0%nat).
    + vm_compute. reflexivity.
    + vm_compute. lia.
    + reflexivity.
    + right. vm_compute. reflexivity.
Defined.

(* ------------------------------------------------------------------ *)
(** * The defensive set *)

Section DefenseFacts.
Variable zob : ZobristKeys.

Lemma length_insertBy (less : Move -> Move -> bool) (m : Move)
    (l : list Move) :
  length (insertBy less m l) = S (length l).
Proof.
  induction l as [ | h t IH]; simpl; [reflexivity | ].
  destruct (less m h); simpl; [reflexivity | now rewrite IH].
Qed.

Lemma length_sortBy (less : Move -> Move -> bool) (l : list Move) :
  length (sortBy less l) = length l.
Proof.
  induction l as [ | h t IH]; simpl; [reflexivity | ].
  now rewrite length_insertBy, IH.
Qed.

Lemma length_collectLegalMoves (b : Board) :
  (length (collectLegalMoves b) <= 144)%nat.
Proof.
  unfold collectLegalMoves, getLegalMoves. rewrite length_sortBy.
  change 144%nat with (length allCells). apply filter_length_le.
Qed.

(** The default limits never stop a scan of the legal moves. *)
Lemma neverStops_default (b : Board) :
  neverStops defaultLimits (length (collectLegalMoves b)).
Proof.
  split; [reflexivity | ].
  pose proof (length_collectLegalMoves b). simpl. lia.
Qed.

(** Every move the defence loop hands back was recorded before the loop
    or is one at which the probe answers true. *)
Lemma defenseLoop_moves (a : Player) (limits : ThreatSearchLimits)
    (legal : list Move) (b : Board) (n : Z) (r res : DefensiveSet) :
  defenseLoop zob a limits legal b n r = Return res \/
  defenseLoop zob a limits legal b n r = Continue res ->
  isLost res = isLost r /\
  forall m, In m (defensiveMoves res) ->
            In m (defensiveMoves r) \/ winsAt zob b a m = true.
Proof.
  revert n r. induction legal as [ | mv rest IH]; intros n r; simpl.
  - intros [H | H]; [discriminate | ]. injection H as <-. auto.
  - destruct (abortRequested limits n).
    { intros [H | H]; [ | discriminate]. injection H as <-. auto. }
    destruct (n + 1 >? maxNodes limits).
    { intros [H | H]; [ | discriminate]. injection H as <-. auto. }
    rewrite isImmediateWinningMove_eq. intros H. apply IH in H.
    destruct H as [HL HM]. destruct (winsAt zob b a mv) eqn:W.
    + split; [exact HL | ]. intros m Hm. apply HM in Hm. simpl in Hm.
      destruct Hm as [Hm | Hm]; [ | now right].
      apply in_app_or in Hm. destruct Hm as [Hm | [<- | []]]; auto.
    + auto.
Qed.

(** Every move of a defensive set is one at which the probe answers true
    for the defender's opponent. *)
Lemma computeDefensiveSet_moves_win (b : Board) (defender : Player)
    (limits : ThreatSearchLimits) (m : Move) :
  In m (defensiveMoves
          (computeDefensiveSet zob (newImpl b) defender limits)) ->
  winsAt zob b (otherPlayer defender) m = true.
Proof.
  unfold computeDefensiveSet, newImpl. cbn [rootBoard].
  destruct (defenseLoop zob (otherPlayer defender) limits
              (collectLegalMoves b) b 0 (mkDefensiveSet false []))
    as [res | res] eqn:L.
  - intros Hm.
    destruct (defenseLoop_moves _ _ _ _ _ _ res (or_introl L)) as [_ HM].
    destruct (HM m Hm) as [[] | ]; assumption.
  - destruct (defenseLoop_moves _ _ _ _ _ _ res (or_intror L)) as [_ HM].
    destruct (length (defensiveMoves res) =? 0)%nat; simpl.
    + intros Hm. destruct (HM m Hm) as [[] | ]; assumption.
    + destruct (1 <? length (defensiveMoves res))%nat; simpl; [tauto | ].
      intros Hm. destruct (HM m Hm) as [[] | ]; assumption.
Qed.

(** Playing any move of a defensive set with [makeMove] leaves the
    defender's opponent with five in a row, and the sequence search for
    that opponent then returns true, whatever its limits. *)
Lemma computeDefensiveSet_listed_move_wins (b : Board) (defender : Player)
    (limits : ThreatSearchLimits) (m : Move) :
  In m (defensiveMoves
          (computeDefensiveSet zob (newImpl b) defender limits)) ->
  exists b',
    makeMove zob b (Move.x m) (Move.y m) = (true, b') /\
    forall outSequence limits',
      fst (findWinningThreatSequence zob (newImpl b') (otherPlayer defender)
             outSequence limits') = true.
Proof.
  intros Hm. apply computeDefensiveSet_moves_win in Hm.
  apply winsAt_iff in Hm. destruct Hm as (b' & E & W).
  exists b'. split; [exact E | ]. intros outSequence limits'.
  unfold findWinningThreatSequence, newImpl. cbn [rootBoard].
  now rewrite W.
Qed.

Lemma existsb_pointwise {A : Type} (f g : A -> bool) (l : list A) :
  (forall a, f a = g a) -> existsb f l = existsb g l.
Proof.
  intros H. induction l as [ | a t IH]; simpl; [reflexivity | ].
  now rewrite H, IH.
Qed.

Lemma forallb_pointwise {A : Type} (f g : A -> bool) (l : list A) :
  (forall a, f a = g a) -> forallb f l = forallb g l.
Proof.
  intros H. induction l as [ | a t IH]; simpl; [reflexivity | ].
  now rewrite H, IH.
Qed.

Lemma checkWin_same_stones (b b' : Board) (p : Player) :
  (forall x y, hasStone b' p x y = hasStone b p x y) ->
  checkWin b' p = checkWin b p.
Proof.
  intros H. unfold checkWin. apply existsb_pointwise. intros m.
  apply existsb_pointwise. intros d. unfold fiveFrom.
  apply forallb_pointwise. intros k. now rewrite H.
Qed.

(** A move changes nothing for the player who did not make it. *)
Lemma makeMove_keeps_other (b b' : Board) (x y : Z) (p : Player) :
  makeMove zob b x y = (true, b') ->
  p <> side_to_move_ b ->
  checkWin b' p = checkWin b p.
Proof.
  intros E Hp. apply makeMove_true in E. destruct E as (_ & _ & ->).
  apply checkWin_same_stones. intros x' y'.
  rewrite hasStone_ignores_side_hash. unfold hasStone, putStone.
  rewrite bb_set_bb.
  destruct (side_to_move_ b), p; try reflexivity; now contradiction Hp.
Qed.

(** For a player who is not to move the probe can only answer true when
    that player has five in a row already. *)
Lemma winsAt_not_to_move (b : Board) (p : Player) (m : Move) :
  p <> side_to_move_ b ->
  winsAt zob b p m = true -> checkWin b p = true.
Proof.
  intros Hp Hw. apply winsAt_iff in Hw. destruct Hw as (b' & E & W).
  now rewrite <- (makeMove_keeps_other b b' _ _ p E Hp).
Qed.

(** X16: when the defender is the side to move and the opponent has no
    five on the board, the defensive set is empty and not lost, whatever
    threats the opponent has and whatever the limits. *)
Lemma computeDefensiveSet_defender_to_move (b : Board) (defender : Player)
    (limits : ThreatSearchLimits) :
  side_to_move_ b = defender ->
  checkWin b (otherPlayer defender) = false ->
  computeDefensiveSet zob (newImpl b) defender limits
    = mkDefensiveSet false [].
Proof.
  intros Hside Hwin.
  assert (Hnone : forall res,
             defenseLoop zob (otherPlayer defender) limits
               (collectLegalMoves b) b 0 (mkDefensiveSet false [])
               = Return res \/
             defenseLoop zob (otherPlayer defender) limits
               (collectLegalMoves b) b 0 (mkDefensiveSet false [])
               = Continue res ->
             res = mkDefensiveSet false []).
  { intros res L. apply defenseLoop_moves in L. destruct L as [HL HM].
    destruct res as [lost [ | m ms]]; simpl in *; [now subst lost | ].
    exfalso. destruct (HM m (or_introl eq_refl)) as [[] | Hw].
    apply winsAt_not_to_move in Hw; [congruence | ].
    rewrite Hside. destruct defender; discriminate. }
  unfold computeDefensiveSet, newImpl. cbn [rootBoard].
  destruct (defenseLoop zob (otherPlayer defender) limits
              (collectLegalMoves b) b 0 (mkDefensiveSet false []))
    as [res | res] eqn:L.
  - apply Hnone. now left.
  - rewrite (Hnone res (or_intror eq_refl)). reflexivity.
Qed.

End DefenseFacts.

(** In terms of its own probe, [computeDefensiveSet(defender)] returns
    [isLost = false] with an empty move list when the sequence search for
    the opponent, under the same limits, finds no win; and, its scan
    running to the end, it returns
    the one move in the list when exactly one move wins for the opponent
    (the cell the defender has to take), and [isLost = true] with the list
    cleared when more than one does; with no such move it is again
    [isLost = false] and the empty list. *)
Theorem computeDefensiveSet_cases (zob : ZobristKeys) (b : Board)
    (defender : Player) (limits : ThreatSearchLimits) :
  (forall outSequence,
      fst (findWinningThreatSequence zob (newImpl b) (otherPlayer defender)
             outSequence limits) = false ->
      computeDefensiveSet zob (newImpl b) defender limits
        = mkDefensiveSet false []) /\
  (neverStops limits (length (collectLegalMoves b)) ->
   (winningMoves zob b (otherPlayer defender) = [] ->
    computeDefensiveSet zob (newImpl b) defender limits
      = mkDefensiveSet false []) /\
   (forall m,
       winningMoves zob b (otherPlayer defender) = [m] ->
       computeDefensiveSet zob (newImpl b) defender limits
         = mkDefensiveSet false [m]) /\
   ((1 < length (winningMoves zob b (otherPlayer defender)))%nat ->
    computeDefensiveSet zob (newImpl b) defender limits
      = mkDefensiveSet true [])).
Proof.
  split.
  - intros outSequence. unfold findWinningThreatSequence, computeDefensiveSet,
      newImpl. cbn [rootBoard].
    destruct (checkWin b (otherPlayer defender)); [discriminate | ].
    destruct (findLoop zob (otherPlayer defender) limits
                (collectLegalMoves b) b 0) as [s | ] eqn:L; [discriminate | ].
    intros _.
    destruct (defenseLoop_of_findLoop_none zob _ _ _ _ _
                (mkDefensiveSet false []) L) as [-> | ->]; reflexivity.
  - intros Hlim. unfold computeDefensiveSet, newImpl. cbn [rootBoard].
    change 0 with (Z.of_nat 0).
    rewrite (defenseLoop_complete zob _ _ _ _ 0 _ Hlim).
    cbn [isLost defensiveMoves app]. fold (winningMoves zob b (otherPlayer defender)).
    destruct (winningMoves zob b (otherPlayer defender)) as [ | m [ | m' ms]];
      simpl; repeat split; try reflexivity; try discriminate; try lia.
    intros m0 E. now injection E as <-.
Qed.

(** The three outcomes for defender black under the default limits: no
    win found for white on [blackFourBoard]; the single winning cell (4,0)
    on [whiteFourBoard]; the two winning cells of [whiteOpenFourBoard]. *)
Lemma computeDefensiveSet_cases_witness :
  computeDefensiveSet sampleZobrist (newImpl blackFourBoard) Black
    defaultLimits = mkDefensiveSet false [] /\
  computeDefensiveSet sampleZobrist (newImpl whiteFourBoard) Black
    defaultLimits = mkDefensiveSet false [Move.mk 4 0] /\
  computeDefensiveSet sampleZobrist (newImpl whiteOpenFourBoard) Black
    defaultLimits = mkDefensiveSet true [].
Proof.
  split; [ | split].
  - apply (proj1 (computeDefensiveSet_cases sampleZobrist blackFourBoard
                    Black defaultLimits) ThreatSequence.default).
    vm_compute. reflexivity.
  - apply (proj2 (computeDefensiveSet_cases sampleZobrist whiteFourBoard
                    Black defaultLimits)).
    + split; [intros k _; reflexivity | vm_compute; discriminate].
    + vm_compute. reflexivity.
  - apply (proj2 (computeDefensiveSet_cases sampleZobrist whiteOpenFourBoard
                    Black defaultLimits)).
    + split; [intros k _; reflexivity | vm_compute; discriminate].
    + vm_compute. lia.
Defined.

(* ------------------------------------------------------------------ *)
(** * Current threats *)

(** Every instance that [collectCurrentForcingThreats] returns is of type
    [Five], for a move at which the probe answers true; the vector it is
    given is emptied first. *)
Lemma collectCurrentForcingThreats_all_five (zob : ZobristKeys) (b : Board)
    (player : Player) (out : list ThreatInstance) :
  collectCurrentForcingThreats zob (newImpl b) player out
    = map (fiveThreat player) (winningMoves zob b player) /\
  forall t,
    In t (collectCurrentForcingThreats zob (newImpl b) player out) ->
    ThreatInstance.type t = Five /\ isForcingType (ThreatInstance.type t) = false.
Proof.
  assert (E : collectCurrentForcingThreats zob (newImpl b) player out
              = map (fiveThreat player) (winningMoves zob b player)).
  { unfold collectCurrentForcingThreats, newImpl. cbn [rootBoard].
    now rewrite collectLoop_filter. }
  split; [exact E | ]. rewrite E. intros t Ht. apply in_map_iff in Ht.
  destruct Ht as (m & <- & _). split; reflexivity.
Qed.

(** C5 does not hold of the code: on [whiteFourBoard]
    [collectCurrentForcingThreats] for white returns one instance, of type
    [Five] with finishing move (4,0), and [Five] is none of the forcing
    classes SimpleFour, OpenThree, BrokenThree. *)
Theorem collectCurrentForcingThreats_reports_five :
  collectCurrentForcingThreats sampleZobrist (newImpl whiteFourBoard) White []
    = [fiveThreat White (Move.mk 4 0)] /\
  ThreatInstance.type (fiveThreat White (Move.mk 4 0)) = Five /\
  isForcingType (ThreatInstance.type (fiveThreat White (Move.mk 4 0)))
    = false.
Proof. repeat split; vm_compute; reflexivity. Qed.

(* ------------------------------------------------------------------ *)
(** * The side to move *)

(** X17: for a player who is not to move, [hasImmediateWinningThreat]
    tells no more than [checkWin]: the probe plays the stone of the side to
    move. *)
Lemma hasImmediateWinningThreat_not_to_move (zob : ZobristKeys) (b : Board)
    (player : Player) :
  player <> sideToMove b ->
  hasImmediateWinningThreat zob (newImpl b) player = checkWin b player.
Proof.
  intros Hp. unfold hasImmediateWinningThreat, newImpl. cbn [rootBoard].
  destruct (checkWin b player) eqn:W; [reflexivity | ].
  rewrite threatLoop_existsb.
  destruct (existsb (winsAt zob b player) (collectLegalMoves b)) eqn:E;
    [ | reflexivity].
  apply existsb_exists in E. destruct E as (m & _ & Hw).
  apply winsAt_not_to_move in Hw; [congruence | exact Hp].
Qed.

(* ------------------------------------------------------------------ *)
(** * Further properties: cells, moves and the scan order *)

(** X1: for cells inside the board, [index] stays below [kBoardCells],
    [chunkOf] picks one of the three words of a bitboard and [offsetOf] one
    of its 64 bits, the two together determine the index, and two cells
    share word and bit only when they are the same cell. *)
Theorem cell_addressing (x y x' y' : Z) :
  inBounds x y = true -> inBounds x' y' = true ->
  0 <= index x y < kBoardCells /\
  0 <= chunkOf (index x y) <= 2 /\
  0 <= offsetOf (index x y) < 64 /\
  index x y = 64 * chunkOf (index x y) + offsetOf (index x y) /\
  ((chunkOf (index x y) = chunkOf (index x' y') /\
    offsetOf (index x y) = offsetOf (index x' y')) <-> (x = x' /\ y = y')).
Proof.
  intros H H'. pose proof (proj1 (inBounds_iff x y) H) as B.
  split; [unfold index, kBoardCells, kBoardSize; lia | ].
  split; [now apply chunkOf_index_range | ].
  split; [apply offsetOf_range | ].
  split; [apply chunk_offset_decompose | ].
  now apply same_cell_iff.
Qed.

(** The corner cells (11,11) and (0,0): index 143 is bit 15 of word 2. *)
Lemma cell_addressing_witness :
  0 <= index 11 11 < kBoardCells /\
  0 <= chunkOf (index 11 11) <= 2 /\
  0 <= offsetOf (index 11 11) < 64 /\
  index 11 11 = 64 * chunkOf (index 11 11) + offsetOf (index 11 11) /\
  ((chunkOf (index 11 11) = chunkOf (index 0 0) /\
    offsetOf (index 11 11) = offsetOf (index 0 0)) <-> (11 = 0 /\ 11 = 0)).
Proof. apply (cell_addressing 11 11 0 0); reflexivity. Defined.

(** X2: [Move::operator==] holds exactly of equal moves, and it is the
    equivalence of [Move::operator<]: two moves are equal exactly when
    neither is less than the other. *)
Theorem Move_eqb_spec :
  (forall a b, Move.eqb a b = true <-> a = b) /\
  (forall a b, Move.eqb a b = negb (Move.ltb a b) && negb (Move.ltb b a)).
Proof.
  split.
  - intros [ax ay] [bx by_]. unfold Move.eqb. simpl.
    rewrite andb_true_iff, !Z.eqb_eq. split.
    + intros [-> ->]. reflexivity.
    + intros E. injection E as -> ->. auto.
  - intros [ax ay] [bx by_]. unfold Move.eqb, Move.ltb. simpl.
    destruct (Z.eqb_spec ax bx), (Z.eqb_spec ay by_),
      (Z.ltb_spec ax bx), (Z.ltb_spec bx ax),
      (Z.ltb_spec ay by_), (Z.ltb_spec by_ ay),
      (Z.eqb_spec bx ax); simpl; try reflexivity; lia.
Qed.

(** X3: the comparator that [collectLegalMoves] gives to [std::sort] is a
    strict total order on moves (irreflexive, transitive, and two moves
    neither of which comes first are equal), and on cells of the board it
    is the order of their bitboard indices. *)
Theorem rowMajorLess_strict_order :
  (forall a, rowMajorLess a a = false) /\
  (forall a b c,
      rowMajorLess a b = true -> rowMajorLess b c = true ->
      rowMajorLess a c = true) /\
  (forall a b,
      rowMajorLess a b = false -> rowMajorLess b a = false -> a = b) /\
  (forall a b,
      inBounds (Move.x a) (Move.y a) = true ->
      inBounds (Move.x b) (Move.y b) = true ->
      (rowMajorLess a b = true <->
       index (Move.x a) (Move.y a) < index (Move.x b) (Move.y b))).
Proof.
  split; [ | split; [ | split] ].
  - intros a. destruct (rowMajorLess a a) eqn:E; [ | reflexivity].
    apply rowMajorLess_iff in E. unfold rowMajorBefore in E. lia.
  - intros a b c Hab Hbc. apply rowMajorLess_iff in Hab, Hbc.
    apply rowMajorLess_iff. unfold rowMajorBefore in *. lia.
  - intros [ax ay] [bx by_]. unfold rowMajorLess. simpl. intros H1 H2.
    destruct (Z.eqb_spec ay by_); destruct (Z.eqb_spec by_ ay);
      rewrite Z.ltb_ge in H1, H2; f_equal; lia.
  - intros a b Ha Hb. apply inBounds_iff in Ha, Hb.
    rewrite rowMajorLess_iff. unfold rowMajorBefore, index, kBoardSize. lia.
Qed.

(** The order on (11,0), (0,1) and (5,1). *)
Lemma rowMajorLess_strict_order_witness :
  rowMajorLess (Move.mk 11 0) (Move.mk 5 1) = true /\
  (rowMajorLess (Move.mk 11 0) (Move.mk 0 1) = true <->
   index 11 0 < index 0 1).
Proof.
  destruct rowMajorLess_strict_order as (_ & T & _ & I). split.
  - exact (T (Move.mk 11 0) (Move.mk 0 1) (Move.mk 5 1) eq_refl eq_refl).
  - exact (I (Move.mk 11 0) (Move.mk 0 1) eq_refl eq_refl).
Defined.

Lemma StronglySorted_NoDup (l : list Move) :
  StronglySorted (fun a b => rowMajorLess a b = true) l -> NoDup l.
Proof.
  induction 1 as [ | a l Hl IH Ha]; constructor; [ | exact IH].
  intros Hin. rewrite Forall_forall in Ha. specialize (Ha a Hin).
  apply rowMajorLess_iff in Ha. unfold rowMajorBefore in Ha. lia.
Qed.

Lemma collectLegalMoves_strongly_sorted (b : Board) :
  StronglySorted (fun m m' => rowMajorLess m m' = true) (collectLegalMoves b).
Proof.
  rewrite collectLegalMoves_row_major. apply StronglySorted_filter.
  exact allCells_row_major.
Qed.

(** X4: [collectLegalMoves] returns the moves of [getLegalMoves], each
    once, in strictly ascending row-major order (by [y], then by [x]). *)
Theorem collectLegalMoves_sorted (b : Board) :
  Permutation (getLegalMoves b) (collectLegalMoves b) /\
  NoDup (collectLegalMoves b) /\
  StronglySorted (fun m m' => rowMajorBefore m m') (collectLegalMoves b).
Proof.
  pose proof (collectLegalMoves_strongly_sorted b) as S.
  split; [rewrite collectLegalMoves_row_major; apply Permutation_refl | ].
  split; [now apply StronglySorted_NoDup | ].
  induction S as [ | a l Hl IH Ha]; constructor; [exact IH | ].
  rewrite Forall_forall in *. intros m Hm. apply rowMajorLess_iff.
  now apply Ha.
Qed.

(* ------------------------------------------------------------------ *)
(** * Further properties: probing a move and guarding it *)

Lemma makeMove_eq (zob : ZobristKeys) (b : Board) (x y : Z) :
  fst (makeMove zob b x y) = inBounds x y && negb (isOccupied b x y).
Proof.
  unfold makeMove. destruct (inBounds x y); simpl; [ | reflexivity].
  destruct (isOccupied b x y); reflexivity.
Qed.

Lemma makeMove_cell (zob : ZobristKeys) (b b' : Board) (x y : Z) :
  makeMove zob b x y = (true, b') ->
  getCellState b' x y = stoneOf (side_to_move_ b).
Proof.
  intros E. apply makeMove_true in E. destruct E as (Hin & Hocc & ->).
  apply isOccupied_false in Hocc. destruct Hocc as [HB HW].
  unfold getCellState.
  rewrite !hasStone_ignores_side_hash, !hasStone_putStone by assumption.
  rewrite HB, HW, !Z.eqb_refl. destruct (side_to_move_ b); reflexivity.
Qed.

(** X5: [isImmediateWinningMove] hands the board back as it received it,
    whether the move was refused or made and unmade, and it answers true
    exactly when the cell is inside the board and free and the attacker has
    five in a row on the board that [makeMove] leaves. *)
Theorem isImmediateWinningMove_probe (zob : ZobristKeys) (b : Board)
    (m : Move) (attacker : Player) :
  snd (isImmediateWinningMove zob b m attacker) = b /\
  (fst (isImmediateWinningMove zob b m attacker) = true <->
   inBounds (Move.x m) (Move.y m) = true /\
   isOccupied b (Move.x m) (Move.y m) = false /\
   exists b', makeMove zob b (Move.x m) (Move.y m) = (true, b') /\
              checkWin b' attacker = true).
Proof.
  split; [apply isImmediateWinningMove_board | ].
  fold (winsAt zob b attacker m). rewrite winsAt_iff. split.
  - intros (b' & E & W).
    destruct (makeMove_true zob _ _ _ _ E) as (Hin & Hocc & _). eauto 6.
  - intros (_ & _ & H). exact H.
Qed.

(** X6: asked about a player who is not to move, the probe says no more
    than that the move is playable and the player has five in a row
    already: the stone it puts down is the other player's. *)
Theorem isImmediateWinningMove_not_to_move (zob : ZobristKeys) (b : Board)
    (m : Move) (attacker : Player) :
  attacker <> sideToMove b ->
  fst (isImmediateWinningMove zob b m attacker) =
  inBounds (Move.x m) (Move.y m)
  && negb (isOccupied b (Move.x m) (Move.y m))
  && checkWin b attacker.
Proof.
  intros Hp. rewrite <- (makeMove_eq zob).
  unfold isImmediateWinningMove.
  destruct (isOccupied b (Move.x m) (Move.y m)) eqn:O.
  - rewrite makeMove_eq, O, andb_false_r. reflexivity.
  - destruct (makeMove zob b (Move.x m) (Move.y m)) as [ok b1] eqn:E.
    destruct ok; simpl; [ | reflexivity].
    rewrite (unmakeMove_makeMove zob b b1 _ _ E). simpl.
    exact (makeMove_keeps_other zob b b1 _ _ attacker E Hp).
Qed.

(** White is not to move on [blackFourBoard]: the probe of (4,0) for white
    answers false. *)
Lemma isImmediateWinningMove_not_to_move_witness :
  fst (isImmediateWinningMove sampleZobrist blackFourBoard (Move.mk 4 0) White)
  = inBounds 4 0 && negb (isOccupied blackFourBoard 4 0)
    && checkWin blackFourBoard White.
Proof.
  apply (isImmediateWinningMove_not_to_move sampleZobrist blackFourBoard
           (Move.mk 4 0) White).
  discriminate.
Defined.

(** X7: a [MoveGuard] built on any move and destroyed again leaves the
    board as it was; it is valid exactly when the move was inside the board
    on a free cell, keeps the move it was built with, and an invalid guard
    has not touched the board. *)
Theorem MoveGuard_scope (zob : ZobristKeys) (b : Board) (m : Move) :
  let g := fst (MoveGuard.construct zob b m) in
  let b1 := snd (MoveGuard.construct zob b m) in
  MoveGuard.destroy zob g b1 = b /\
  MoveGuard.isValid g =
    inBounds (Move.x m) (Move.y m) && negb (isOccupied b (Move.x m) (Move.y m)) /\
  MoveGuard.move_ g = m /\
  (if MoveGuard.isValid g
   then sideToMove b1 = otherPlayer (sideToMove b) /\
        getCellState b1 (Move.x m) (Move.y m) = stoneOf (sideToMove b)
   else b1 = b).
Proof.
  unfold MoveGuard.construct, MoveGuard.destroy, MoveGuard.isValid.
  pose proof (makeMove_eq zob b (Move.x m) (Move.y m)) as Hv.
  destruct (makeMove zob b (Move.x m) (Move.y m)) as [ok b1] eqn:E.
  simpl in *. destruct ok.
  - rewrite (unmakeMove_makeMove zob b b1 _ _ E). simpl.
    repeat split; auto.
    + destruct (makeMove_true zob _ _ _ _ E) as (_ & _ & ->). reflexivity.
    + exact (makeMove_cell zob b b1 _ _ E).
  - apply makeMove_false in E. auto.
Qed.

(* ------------------------------------------------------------------ *)
(** * Further properties: the sequence search *)

Section FindFacts.
Variable zob : ZobristKeys.

(** A successful search loop stopped at the first move of its list at
    which the probe answers true. *)
Lemma findLoop_some_split (a : Player) (limits : ThreatSearchLimits)
    (legal : list Move) (b : Board) (n : Z) (seq : ThreatSequence) :
  findLoop zob a limits legal b n = Some seq ->
  exists l1 m l2,
    legal = l1 ++ m :: l2 /\
    (forall x, In x l1 -> winsAt zob b a x = false) /\
    winsAt zob b a m = true /\
    seq = fiveSequence a m.
Proof.
  revert n. induction legal as [ | mv rest IH]; intros n; simpl;
    [discriminate | ].
  destruct (abortRequested limits n); [discriminate | ].
  destruct (n + 1 >? maxNodes limits); [discriminate | ].
  rewrite isImmediateWinningMove_eq.
  destruct (winsAt zob b a mv) eqn:W.
  - intros E. injection E as <-. exists [], mv, rest.
    repeat split; auto. intros x [].
  - intros E. destruct (IH _ E) as (l1 & m & l2 & -> & Hl1 & Hm & Hs).
    exists (mv :: l1), m, l2. repeat split; auto.
    intros x [<- | Hx]; auto.
Qed.

Lemma filter_first (f : Move -> bool) (l1 l2 : list Move) (m : Move) :
  (forall x, In x l1 -> f x = false) -> f m = true ->
  filter f (l1 ++ m :: l2) = m :: filter f l2.
Proof.
  intros Hl1 Hm. induction l1 as [ | h t IH]; simpl.
  - now rewrite Hm.
  - rewrite (Hl1 h (or_introl eq_refl)). apply IH.
    intros x Hx. apply Hl1. now right.
Qed.

Lemma existsb_filter (f : Move -> bool) (l : list Move) :
  existsb f l = match filter f l with [] => false | _ :: _ => true end.
Proof.
  induction l as [ | h t IH]; simpl; [reflexivity | ].
  destruct (f h); simpl; [reflexivity | exact IH].
Qed.

(** Without an abort flag, the loop started with [n0] nodes counted probes
    the first [maxNodes - n0] moves and no more. *)
Lemma findLoop_budget (a : Player) (limits : ThreatSearchLimits)
    (legal : list Move) (b : Board) (n0 : Z) :
  abortFlag limits = None ->
  match findLoop zob a limits legal b n0 with
  | Some _ => true
  | None => false
  end
  = existsb (winsAt zob b a)
      (firstn (Z.to_nat (maxNodes limits - n0)) legal).
Proof.
  intros Hflag. revert n0.
  induction legal as [ | mv rest IH]; intros n0; simpl.
  - now rewrite firstn_nil.
  - unfold abortRequested. rewrite Hflag.
    destruct (Z.gtb_spec (n0 + 1) (maxNodes limits)) as [G | G].
    + replace (Z.to_nat (maxNodes limits - n0)) with 0%nat by lia.
      reflexivity.
    + replace (Z.to_nat (maxNodes limits - n0))
        with (S (Z.to_nat (maxNodes limits - (n0 + 1)))) by lia.
      simpl. rewrite isImmediateWinningMove_eq.
      destruct (winsAt zob b a mv); simpl; [reflexivity | apply IH].
Qed.

End FindFacts.

(** X8: limits only withhold an answer: a sequence that
    [findWinningThreatSequence] returns under some limits is the one it
    returns, for the same board and attacker, under any limits that let the
    scan run to the end (the default limits among them), whatever the
    out-parameter held. *)
Theorem findWinningThreatSequence_limits_withhold (zob : ZobristKeys)
    (b : Board) (attacker : Player) (out out' seq : ThreatSequence)
    (limits limits' : ThreatSearchLimits) :
  findWinningThreatSequence zob (newImpl b) attacker out limits
    = (true, seq) ->
  neverStops limits' (length (collectLegalMoves b)) ->
  findWinningThreatSequence zob (newImpl b) attacker out' limits'
    = (true, seq).
Proof.
  unfold findWinningThreatSequence, newImpl. cbn [rootBoard].
  destruct (checkWin b attacker); [intros E _; now injection E as <- | ].
  destruct (findLoop zob attacker limits (collectLegalMoves b) b 0)
    as [s | ] eqn:L; [ | discriminate].
  intros E Hlim. injection E as <-.
  apply findLoop_some_split in L.
  destruct L as (l1 & m & l2 & Hl & Hl1 & Hm & ->).
  change 0 with (Z.of_nat 0).
  rewrite (findLoop_complete zob attacker limits' _ b 0 Hlim).
  rewrite Hl, (filter_first _ l1 l2 m Hl1 Hm). reflexivity.
Qed.

(** White's win at (4,0) on [whiteFourBoard], found with a budget of one
    node, is the answer under the default limits too. *)
Lemma findWinningThreatSequence_limits_withhold_witness :
  findWinningThreatSequence sampleZobrist (newImpl whiteFourBoard) White
    (fiveSequence Black (Move.mk 9 9)) defaultLimits
  = (true, fiveSequence White (Move.mk 4 0)).
Proof.
  apply (findWinningThreatSequence_limits_withhold sampleZobrist
           whiteFourBoard White ThreatSequence.default
           (fiveSequence Black (Move.mk 9 9))
           (fiveSequence White (Move.mk 4 0)) oneNodeLimits defaultLimits).
  - vm_compute. reflexivity.
  - split; [intros k _; reflexivity | vm_compute; discriminate].
Defined.

(** X9: with no abort flag, a budget of [maxNodes] lets
    [findWinningThreatSequence] probe the first [maxNodes] legal moves in
    scan order and no more (none for a budget of zero or less): it returns
    true exactly when the attacker has five in a row already or one of
    those moves wins. *)
Theorem findWinningThreatSequence_node_budget (zob : ZobristKeys)
    (b : Board) (attacker : Player) (out : ThreatSequence)
    (limits : ThreatSearchLimits) :
  abortFlag limits = None ->
  fst (findWinningThreatSequence zob (newImpl b) attacker out limits)
  = checkWin b attacker
    || existsb (fun m => fst (isImmediateWinningMove zob b m attacker))
         (firstn (Z.to_nat (maxNodes limits)) (collectLegalMoves b)).
Proof.
  intros Hflag. unfold findWinningThreatSequence, newImpl. cbn [rootBoard].
  destruct (checkWin b attacker); [reflexivity | ]. simpl.
  pose proof (findLoop_budget zob attacker limits (collectLegalMoves b) b 0
                Hflag) as H.
  rewrite Z.sub_0_r in H. unfold winsAt in H. rewrite <- H.
  destruct (findLoop zob attacker limits (collectLegalMoves b) b 0);
    reflexivity.
Qed.

(** Black's search on [blackFourBoard] with a budget of zero probes
    nothing. *)
Lemma findWinningThreatSequence_node_budget_witness :
  fst (findWinningThreatSequence sampleZobrist (newImpl blackFourBoard) Black
         ThreatSequence.default noNodesLimits)
  = checkWin blackFourBoard Black
    || existsb
         (fun m => fst (isImmediateWinningMove sampleZobrist blackFourBoard
                          m Black))
         (firstn (Z.to_nat (maxNodes noNodesLimits))
            (collectLegalMoves blackFourBoard)).
Proof.
  apply (findWinningThreatSequence_node_budget sampleZobrist blackFourBoard
           Black ThreatSequence.default noNodesLimits).
  reflexivity.
Defined.

Lemma StronglySorted_after {A : Type} (R : A -> A -> Prop)
    (l1 l2 : list A) (m : A) :
  StronglySorted R (l1 ++ m :: l2) -> Forall (R m) l2.
Proof.
  induction l1 as [ | h t IH]; simpl; intros H;
    inversion H as [ | ? ? Hs Hf]; subst; auto.
Qed.

(** X10: the move that [findWinningThreatSequence] returns is the first
    winning one in row-major order: no legal move that comes before it (by
    [y], then by [x]) is one at which the probe answers true. *)
Theorem findWinningThreatSequence_first_found (zob : ZobristKeys)
    (b : Board) (attacker : Player) (out seq : ThreatSequence)
    (limits : ThreatSearchLimits) (m m' : Move) :
  findWinningThreatSequence zob (newImpl b) attacker out limits
    = (true, seq) ->
  ThreatSequence.attackerMoves seq = [m] ->
  In m' (getLegalMoves b) -> rowMajorBefore m' m ->
  fst (isImmediateWinningMove zob b m' attacker) = false.
Proof.
  unfold findWinningThreatSequence, newImpl. cbn [rootBoard].
  destruct (checkWin b attacker).
  { intros E. injection E as <-. discriminate. }
  destruct (findLoop zob attacker limits (collectLegalMoves b) b 0)
    as [s | ] eqn:L; [ | discriminate].
  intros E Hm Hin Hbefore. injection E as <-.
  apply findLoop_some_split in L.
  destruct L as (l1 & m0 & l2 & Hl & Hl1 & _ & ->).
  simpl in Hm. injection Hm as ->.
  apply in_collectLegalMoves_iff in Hin.
  pose proof (collectLegalMoves_strongly_sorted b) as S.
  rewrite Hl in Hin, S. apply in_app_or in Hin.
  destruct Hin as [Hin | [<- | Hin] ].
  - exact (Hl1 m' Hin).
  - exfalso. unfold rowMajorBefore in Hbefore. lia.
  - exfalso. apply StronglySorted_after in S.
    rewrite Forall_forall in S. specialize (S m' Hin).
    apply rowMajorLess_iff in S.
    unfold rowMajorBefore in S, Hbefore. lia.
Qed.

(** On [whiteMidFourBoard] white's search returns (2,0); the legal move
    (1,0) before it does not win. *)
Lemma findWinningThreatSequence_first_found_witness :
  fst (isImmediateWinningMove sampleZobrist whiteMidFourBoard (Move.mk 1 0)
         White) = false.
Proof.
  apply (findWinningThreatSequence_first_found sampleZobrist
           whiteMidFourBoard White ThreatSequence.default
           (fiveSequence White (Move.mk 2 0)) defaultLimits
           (Move.mk 2 0) (Move.mk 1 0)).
  - vm_compute. reflexivity.
  - reflexivity.
  - apply in_getLegalMoves_iff. split; vm_compute; reflexivity.
  - right. simpl. lia.
Defined.

(** X11: [findWinningThreatSequence] leaves [outSequence] as it was when it
    returns false; when it returns true the sequence does not depend on
    what [outSequence] held, names the attacker, and holds one [Five]
    threat per attacker move, finished by that move. *)
Theorem findWinningThreatSequence_out_parameter (zob : ZobristKeys)
    (impl : Impl) (attacker : Player) (out seq : ThreatSequence)
    (limits : ThreatSearchLimits) (found : bool) :
  findWinningThreatSequence zob impl attacker out limits = (found, seq) ->
  if found
  then (forall out',
           findWinningThreatSequence zob impl attacker out' limits
             = (true, seq)) /\
       ThreatSequence.attacker seq = attacker /\
       ThreatSequence.threats seq
         = map (fiveThreat attacker) (ThreatSequence.attackerMoves seq)
  else seq = out.
Proof.
  unfold findWinningThreatSequence.
  destruct (rootBoard impl) as [b | ].
  2:{ intros E. injection E as <- <-. reflexivity. }
  destruct (checkWin b attacker).
  { intros E. injection E as <- <-. repeat split. }
  destruct (findLoop zob attacker limits (collectLegalMoves b) b 0)
    as [s | ] eqn:L; intros E; injection E as <- <-; [ | reflexivity].
  apply findLoop_some in L. destruct L as (m & _ & _ & ->).
  repeat split.
Qed.

(** The search for white on [whiteFourBoard], started with a sequence of
    black's in the out-parameter. *)
Lemma findWinningThreatSequence_out_parameter_witness :
  (forall out',
      findWinningThreatSequence sampleZobrist (newImpl whiteFourBoard) White
        out' defaultLimits = (true, fiveSequence White (Move.mk 4 0))) /\
  ThreatSequence.attacker (fiveSequence White (Move.mk 4 0)) = White /\
  ThreatSequence.threats (fiveSequence White (Move.mk 4 0))
    = map (fiveThreat White)
        (ThreatSequence.attackerMoves (fiveSequence White (Move.mk 4 0))).
Proof.
  apply (findWinningThreatSequence_out_parameter sampleZobrist
           (newImpl whiteFourBoard) White (fiveSequence Black (Move.mk 9 9))
           (fiveSequence White (Move.mk 4 0)) defaultLimits true).
  vm_compute. reflexivity.
Defined.

(** X12: [findWinningThreatSequence] never returns true where
    [hasImmediateWinningThreat] returns false, and under limits that let
    the scan run to the end, the default limits among them, the two give
    the same answer. *)
Theorem findWinningThreatSequence_agrees_with_query (zob : ZobristKeys)
    (b : Board) (attacker : Player) (out : ThreatSequence)
    (limits : ThreatSearchLimits) :
  (fst (findWinningThreatSequence zob (newImpl b) attacker out limits)
     = true ->
   hasImmediateWinningThreat zob (newImpl b) attacker = true) /\
  (neverStops limits (length (collectLegalMoves b)) ->
   fst (findWinningThreatSequence zob (newImpl b) attacker out limits)
   = hasImmediateWinningThreat zob (newImpl b) attacker) /\
  fst (findWinningThreatSequence zob (newImpl b) attacker out defaultLimits)
  = hasImmediateWinningThreat zob (newImpl b) attacker.
Proof.
  assert (Hfull : forall limits',
             neverStops limits' (length (collectLegalMoves b)) ->
             fst (findWinningThreatSequence zob (newImpl b) attacker out
                    limits')
             = hasImmediateWinningThreat zob (newImpl b) attacker).
  { intros limits' Hlim.
    unfold findWinningThreatSequence, hasImmediateWinningThreat, newImpl.
    cbn [rootBoard]. destruct (checkWin b attacker); [reflexivity | ].
    change 0 with (Z.of_nat 0).
    rewrite (findLoop_complete zob attacker limits' _ b 0 Hlim).
    rewrite threatLoop_existsb, existsb_filter.
    destruct (filter (winsAt zob b attacker) (collectLegalMoves b));
      reflexivity. }
  split; [ | split; [apply Hfull | apply Hfull, neverStops_default] ].
  unfold findWinningThreatSequence, hasImmediateWinningThreat, newImpl.
  cbn [rootBoard]. destruct (checkWin b attacker); [reflexivity | ].
  destruct (findLoop zob attacker limits (collectLegalMoves b) b 0)
    as [s | ] eqn:L; [ | discriminate].
  intros _. apply findLoop_some in L. destruct L as (m & Hin & Hw & _).
  rewrite threatLoop_existsb. apply existsb_exists. eauto.
Qed.

(** The search with a budget of one node on [whiteFourBoard] returns true,
    and so does the query. *)
Lemma findWinningThreatSequence_agrees_with_query_witness :
  hasImmediateWinningThreat sampleZobrist (newImpl whiteFourBoard) White
  = true.
Proof.
  apply (proj1 (findWinningThreatSequence_agrees_with_query sampleZobrist
                  whiteFourBoard White ThreatSequence.default oneNodeLimits)).
  vm_compute. reflexivity.
Defined.

(* ------------------------------------------------------------------ *)
(** * Further properties: the defensive set under limits *)

Section DefenseLimits.
Variable zob : ZobristKeys.

(** A defence loop that ran to its end has recorded every move of its list
    at which the probe answers true. *)
Lemma defenseLoop_continue (a : Player) (limits : ThreatSearchLimits)
    (legal : list Move) (b : Board) (n : Z) (r res : DefensiveSet) :
  defenseLoop zob a limits legal b n r = Continue res ->
  res = mkDefensiveSet (isLost r)
          (defensiveMoves r ++ filter (winsAt zob b a) legal).
Proof.
  revert n r. induction legal as [ | mv rest IH]; intros n r; simpl.
  - intros E. injection E as <-. rewrite app_nil_r. now destruct r.
  - destruct (abortRequested limits n); [discriminate | ].
    destruct (n + 1 >? maxNodes limits); [discriminate | ].
    rewrite isImmediateWinningMove_eq. intros E. apply IH in E.
    rewrite E. destruct (winsAt zob b a mv); simpl; [ | reflexivity].
    now rewrite <- app_assoc.
Qed.

(** A defence loop stopped at its [k]-th pass hands back the moves
    recorded in the passes before. *)
Lemma defenseLoop_cut (a : Player) (limits : ThreatSearchLimits)
    (legal : list Move) (b : Board) (n k : nat) (r : DefensiveSet) :
  (forall j, (n <= j < n + k)%nat ->
             abortRequested limits (Z.of_nat j) = false) ->
  Z.of_nat (n + k) <= maxNodes limits ->
  stopsAt limits (n + k) ->
  (k < length legal)%nat ->
  defenseLoop zob a limits legal b (Z.of_nat n) r =
  Return (mkDefensiveSet (isLost r)
            (defensiveMoves r ++ filter (winsAt zob b a) (firstn k legal))).
Proof.
  revert n k r. induction legal as [ | mv rest IH];
    intros n k r Hab Hmax Hstop Hk; simpl in Hk; [lia | ].
  destruct k as [ | k].
  - rewrite Nat.add_0_r in Hstop. simpl. rewrite app_nil_r.
    destruct Hstop as [S | S].
    + rewrite S. now destruct r.
    + destruct (abortRequested limits (Z.of_nat n)); [now destruct r | ].
      destruct (Z.gtb_spec (Z.of_nat n + 1) (maxNodes limits)) as [G | G];
        [now destruct r | lia].
  - simpl. rewrite Hab by lia.
    destruct (Z.gtb_spec (Z.of_nat n + 1) (maxNodes limits)) as [G | G];
      [lia | ].
    rewrite isImmediateWinningMove_eq.
    replace (Z.of_nat n + 1) with (Z.of_nat (S n)) by lia.
    rewrite (IH (S n) k).
    + destruct (winsAt zob b a mv); simpl; [ | reflexivity].
      now rewrite <- app_assoc.
    + intros j Hj. apply Hab. lia.
    + now replace (S n + k)%nat with (n + S k)%nat by lia.
    + now replace (S n + k)%nat with (n + S k)%nat by lia.
    + lia.
Qed.

(** Where the sequence search for the opponent returns false, the
    defensive set computed under the same limits is empty and not lost. *)
Lemma computeDefensiveSet_of_find_false (b : Board) (defender : Player)
    (limits : ThreatSearchLimits) (out : ThreatSequence) :
  fst (findWinningThreatSequence zob (newImpl b) (otherPlayer defender) out
         limits) = false ->
  computeDefensiveSet zob (newImpl b) defender limits
    = mkDefensiveSet false [].
Proof.
  unfold findWinningThreatSequence, computeDefensiveSet, newImpl.
  cbn [rootBoard].
  destruct (checkWin b (otherPlayer defender)); [discriminate | ].
  destruct (findLoop zob (otherPlayer defender) limits
              (collectLegalMoves b) b 0) as [s | ] eqn:L; [discriminate | ].
  intros _.
  destruct (defenseLoop_of_findLoop_none zob _ _ _ _ _
              (mkDefensiveSet false []) L) as [-> | ->]; reflexivity.
Qed.

End DefenseLimits.

(** X13: when [computeDefensiveSet] reports [isLost], its move list is
    empty, its scan was not cut short, and more than one legal move is one
    at which the probe answers true for the defender's opponent. *)
Theorem computeDefensiveSet_lost (zob : ZobristKeys) (b : Board)
    (defender : Player) (limits : ThreatSearchLimits) :
  isLost (computeDefensiveSet zob (newImpl b) defender limits) = true ->
  defensiveMoves (computeDefensiveSet zob (newImpl b) defender limits) = [] /\
  (1 < length (filter
                 (fun m => fst (isImmediateWinningMove zob b m
                                  (otherPlayer defender)))
                 (collectLegalMoves b)))%nat /\
  computeDefensiveSet zob (newImpl b) defender limits
    = computeDefensiveSet zob (newImpl b) defender defaultLimits.
Proof.
  assert (Hdef : defenseLoop zob (otherPlayer defender) defaultLimits
                   (collectLegalMoves b) b 0 (mkDefensiveSet false []) =
                 Continue (mkDefensiveSet false
                   (filter (winsAt zob b (otherPlayer defender))
                      (collectLegalMoves b)))).
  { change 0 with (Z.of_nat 0).
    now rewrite (defenseLoop_complete zob _ _ _ _ 0 _ (neverStops_default b)). }
  unfold computeDefensiveSet at 1 2 3, newImpl. cbn [rootBoard].
  destruct (defenseLoop zob (otherPlayer defender) limits
              (collectLegalMoves b) b 0 (mkDefensiveSet false []))
    as [res | res] eqn:L.
  - destruct (defenseLoop_moves zob _ _ _ _ _ _ res (or_introl L)) as [HL _].
    simpl in HL. congruence.
  - apply defenseLoop_continue in L. subst res. cbn [isLost defensiveMoves app].
    unfold computeDefensiveSet, newImpl. cbn [rootBoard].
    rewrite Hdef. cbn [isLost defensiveMoves].
    fold (winsAt zob b (otherPlayer defender)).
    destruct (filter (winsAt zob b (otherPlayer defender))
                (collectLegalMoves b)) as [ | m [ | m' ms] ]; simpl;
      try discriminate.
    intros _. repeat split. lia.
Qed.

(** Black's defensive set on [whiteOpenFourBoard] is lost. *)
Lemma computeDefensiveSet_lost_witness :
  defensiveMoves
    (computeDefensiveSet sampleZobrist (newImpl whiteOpenFourBoard) Black
       defaultLimits) = [].
Proof.
  apply (computeDefensiveSet_lost sampleZobrist whiteOpenFourBoard Black
           defaultLimits).
  vm_compute. reflexivity.
Defined.

(** X14: when the limits stop [computeDefensiveSet] at pass [k] of its
    scan, it returns [isLost = false] with the winning moves found among
    the first [k] legal moves, however many they are and whatever the
    moves not yet probed would have shown. *)
Theorem computeDefensiveSet_cut_short (zob : ZobristKeys) (b : Board)
    (defender : Player) (limits : ThreatSearchLimits) (k : nat) :
  neverStops limits k -> stopsAt limits k ->
  (k < length (collectLegalMoves b))%nat ->
  computeDefensiveSet zob (newImpl b) defender limits
  = mkDefensiveSet false
      (filter (fun m => fst (isImmediateWinningMove zob b m
                               (otherPlayer defender)))
         (firstn k (collectLegalMoves b))).
Proof.
  intros [Hab Hmax] Hstop Hk.
  unfold computeDefensiveSet, newImpl. cbn [rootBoard].
  change 0 with (Z.of_nat 0).
  rewrite (defenseLoop_cut zob _ limits _ b 0 k); auto.
  intros j Hj. apply Hab. lia.
Qed.

(** With a budget of three nodes on [whiteMidFourBoard] the scan stops
    after (0,0), (1,0) and (2,0): the set is not lost and lists (2,0),
    although (7,0) wins for white as well. *)
Lemma computeDefensiveSet_cut_short_witness :
  computeDefensiveSet sampleZobrist (newImpl whiteMidFourBoard) Black
    threeNodesLimits
  = mkDefensiveSet false
      (filter (fun m => fst (isImmediateWinningMove sampleZobrist
                               whiteMidFourBoard m (otherPlayer Black)))
         (firstn 3 (collectLegalMoves whiteMidFourBoard))).
Proof.
  apply (computeDefensiveSet_cut_short sampleZobrist whiteMidFourBoard Black
           threeNodesLimits 3).
  - split; [intros j _; reflexivity | vm_compute; discriminate].
  - right. vm_compute. reflexivity.
  - vm_compute. lia.
Defined.

(** X15: every move in the list that [computeDefensiveSet] returns is a
    legal move of the board, an empty cell inside it, at which the probe
    for the defender's opponent answers true. *)
Theorem computeDefensiveSet_moves_legal (zob : ZobristKeys) (b : Board)
    (defender : Player) (limits : ThreatSearchLimits) (m : Move) :
  In m (defensiveMoves
          (computeDefensiveSet zob (newImpl b) defender limits)) ->
  In m (getLegalMoves b) /\
  inBounds (Move.x m) (Move.y m) = true /\
  isOccupied b (Move.x m) (Move.y m) = false /\
  fst (isImmediateWinningMove zob b m (otherPlayer defender)) = true.
Proof.
  intros Hm. apply computeDefensiveSet_moves_win in Hm.
  pose proof Hm as Hw. apply winsAt_iff in Hw. destruct Hw as (b' & E & _).
  destruct (makeMove_true zob _ _ _ _ E) as (Hin & Hocc & _).
  split; [apply in_getLegalMoves_iff; auto | auto].
Qed.

(** The move (4,0) of black's defensive set on [whiteFourBoard]. *)
Lemma computeDefensiveSet_moves_legal_witness :
  In (Move.mk 4 0) (getLegalMoves whiteFourBoard) /\
  inBounds 4 0 = true /\
  isOccupied whiteFourBoard 4 0 = false /\
  fst (isImmediateWinningMove sampleZobrist whiteFourBoard (Move.mk 4 0)
         (otherPlayer Black)) = true.
Proof.
  apply (computeDefensiveSet_moves_legal sampleZobrist whiteFourBoard Black
           defaultLimits (Move.mk 4 0)).
  vm_compute. left. reflexivity.
Defined.

(** Black is to move on [blackFourBoard] and white has no five: black's
    defensive set is empty under the default limits. *)
Lemma computeDefensiveSet_defender_to_move_witness :
  computeDefensiveSet sampleZobrist (newImpl blackFourBoard) Black
    defaultLimits = mkDefensiveSet false [].
Proof.
  apply (computeDefensiveSet_defender_to_move sampleZobrist blackFourBoard
           Black defaultLimits).
  - reflexivity.
  - vm_compute. reflexivity.
Defined.

(** White is not to move on [blackFourBoard]. *)
Lemma hasImmediateWinningThreat_not_to_move_witness :
  hasImmediateWinningThreat sampleZobrist (newImpl blackFourBoard) White
  = checkWin blackFourBoard White.
Proof.
  apply (hasImmediateWinningThreat_not_to_move sampleZobrist blackFourBoard
           White).
  discriminate.
Defined.

(* ------------------------------------------------------------------ *)
(** * Further properties: the solver's answers under the default limits *)

Section DefaultLimits.
Variable zob : ZobristKeys.

Lemma hasImmediateWinningThreat_eq (b : Board) (a : Player) :
  hasImmediateWinningThreat zob (newImpl b) a =
  checkWin b a
  || match winningMoves zob b a with [] => false | _ :: _ => true end.
Proof.
  unfold hasImmediateWinningThreat, newImpl, winningMoves. cbn [rootBoard].
  destruct (checkWin b a); [reflexivity | ].
  now rewrite threatLoop_existsb, existsb_filter.
Qed.

Lemma findWinningThreatSequence_default (b : Board) (a : Player)
    (out : ThreatSequence) :
  findWinningThreatSequence zob (newImpl b) a out defaultLimits =
  if checkWin b a then (true, ThreatSequence.mk a [] [] [])
  else match winningMoves zob b a with
       | [] => (false, out)
       | m :: _ => (true, fiveSequence a m)
       end.
Proof.
  unfold findWinningThreatSequence, newImpl, winningMoves. cbn [rootBoard].
  destruct (checkWin b a); [reflexivity | ].
  change 0 with (Z.of_nat 0).
  rewrite (findLoop_complete zob a defaultLimits _ b 0 (neverStops_default b)).
  destruct (filter (winsAt zob b a) (collectLegalMoves b)); reflexivity.
Qed.

Lemma computeDefensiveSet_default (b : Board) (defender : Player) :
  computeDefensiveSet zob (newImpl b) defender defaultLimits =
  match winningMoves zob b (otherPlayer defender) with
  | [] => mkDefensiveSet false []
  | [m] => mkDefensiveSet false [m]
  | _ :: _ :: _ => mkDefensiveSet true []
  end.
Proof.
  unfold computeDefensiveSet, newImpl, winningMoves. cbn [rootBoard].
  change 0 with (Z.of_nat 0).
  rewrite (defenseLoop_complete zob _ defaultLimits _ b 0 _
             (neverStops_default b)).
  cbn [isLost defensiveMoves app].
  destruct (filter (winsAt zob b (otherPlayer defender))
              (collectLegalMoves b)) as [ | m [ | m' ms] ]; reflexivity.
Qed.

End DefaultLimits.

(** X18: [collectCurrentForcingThreats] and [hasImmediateWinningThreat]
    tell the same story: the query is true exactly when the player has five
    in a row already or the collection, whatever its vector held before,
    comes back non-empty. *)
Theorem collectCurrentForcingThreats_matches_query (zob : ZobristKeys)
    (b : Board) (player : Player) (out : list ThreatInstance) :
  hasImmediateWinningThreat zob (newImpl b) player =
  checkWin b player
  || match collectCurrentForcingThreats zob (newImpl b) player out with
     | [] => false
     | _ :: _ => true
     end.
Proof.
  rewrite hasImmediateWinningThreat_eq. f_equal.
  unfold collectCurrentForcingThreats, newImpl. cbn [rootBoard].
  rewrite collectLoop_filter. fold (winningMoves zob b player).
  destruct (winningMoves zob b player); reflexivity.
Qed.

(** X19: [Impl::analyzeThreats] leaves the solver attached to the board it
    was given, whatever it was attached to before; [attackerHasForcedWin]
    is the answer of [hasImmediateWinningThreat] on that board;
    [defensiveMoves] is always empty; [winningLine] is empty when the
    attacker has five in a row already and otherwise holds the first
    winning move, if there is one; [firstWinningMove] is the head of
    [winningLine], and (0,0) when the line is empty. *)
Theorem analyzeThreats_summary (zob : ZobristKeys) (impl : Impl)
    (board : Board) (attacker : Player) :
  let r := fst (analyzeThreats zob impl board attacker) in
  snd (analyzeThreats zob impl board attacker) = newImpl board /\
  ThreatAnalysis.attackerHasForcedWin r =
    hasImmediateWinningThreat zob (newImpl board) attacker /\
  ThreatAnalysis.defensiveMoves r = [] /\
  ThreatAnalysis.winningLine r =
    (if checkWin board attacker then []
     else firstn 1 (winningMoves zob board attacker)) /\
  ThreatAnalysis.firstWinningMove r =
    hd (Move.mk 0 0) (ThreatAnalysis.winningLine r).
Proof.
  unfold analyzeThreats, syncFromBoard. fold (newImpl board).
  rewrite findWinningThreatSequence_default, hasImmediateWinningThreat_eq.
  destruct (checkWin board attacker) eqn:W; [repeat split | ].
  destruct (winningMoves zob board attacker) as [ | m ms] eqn:Hw;
    [ | repeat split].
  rewrite (computeDefensiveSet_of_find_false zob board (otherPlayer attacker)
             defaultLimits ThreatSequence.default).
  - repeat split.
  - rewrite otherPlayer_involutive, findWinningThreatSequence_default, W, Hw.
    reflexivity.
Qed.

(** X20: the header's inline [analyzeThreats] adapter reports the same
    forced win, winning line and first winning move as
    [Impl::analyzeThreats] on the solver's board, and ignores the board it
    is passed; its [defensiveMoves] hold the attacker's winning move when
    exactly one legal move wins, and nothing otherwise. *)
Theorem analyzeThreatsAdapter_summary (zob : ZobristKeys) (b board : Board)
    (attacker : Player) :
  let r := analyzeThreatsAdapter zob (newImpl b) board attacker in
  let r' := fst (analyzeThreats zob (newImpl b) b attacker) in
  ThreatAnalysis.attackerHasForcedWin r
    = ThreatAnalysis.attackerHasForcedWin r' /\
  ThreatAnalysis.winningLine r = ThreatAnalysis.winningLine r' /\
  ThreatAnalysis.firstWinningMove r = ThreatAnalysis.firstWinningMove r' /\
  ThreatAnalysis.defensiveMoves r =
    match winningMoves zob b attacker with
    | [m] => [m]
    | _ => []
    end.
Proof.
  unfold analyzeThreatsAdapter, analyzeThreats, syncFromBoard.
  fold (otherPlayer attacker). fold (newImpl b).
  rewrite !computeDefensiveSet_default, otherPlayer_involutive.
  rewrite !findWinningThreatSequence_default.
  destruct (checkWin b attacker);
    destruct (winningMoves zob b attacker) as [ | m [ | m' ms] ];
    repeat split.
Qed.

(* ------------------------------------------------------------------ *)
(** * Further properties: the score constants *)

(** X21: [kMateScore] lies 1000 below [kInfinity], and [kInfinity] is small
    enough that the sum and the difference of any two scores between
    [-kInfinity] and [kInfinity], and the negation of one, are computed in
    [int] without wrapping. *)
Theorem score_headroom (a b : Z) :
  kMateScore + 1000 = kInfinity /\
  (- kInfinity <= a <= kInfinity -> - kInfinity <= b <= kInfinity ->
   wrapInt (a + b) = a + b /\ wrapInt (a - b) = a - b /\
   wrapInt (- a) = - a).
Proof.
  split; [reflexivity | ].
  assert (K : kInfinity = 536870911) by reflexivity.
  assert (P : 2 ^ 31 = 2147483648) by reflexivity.
  rewrite K. intros Ha Hb. repeat split; apply wrapInt_small; lia.
Qed.

(** The window from [-kInfinity] to [kInfinity] itself. *)
Lemma score_headroom_witness :
  wrapInt (kInfinity + kInfinity) = kInfinity + kInfinity /\
  wrapInt (kInfinity - kInfinity) = kInfinity - kInfinity /\
  wrapInt (- kInfinity) = - kInfinity.
Proof.
  apply (proj2 (score_headroom kInfinity kInfinity));
    vm_compute; split; discriminate.
Defined.

(* ------------------------------------------------------------------ *)
(** * The player who is not to move *)

Section StoneFacts.
Variable zob : ZobristKeys.

Lemma placeStone_true (b b' : Board) (x y : Z) (p : Player) :
  placeStone zob b x y p = (true, b') ->
  inBounds x y = true /\ isOccupied b x y = false /\
  b' = mkBoard (bbBlack (putStone b p x y)) (bbWhite (putStone b p x y))
         (side_to_move_ b)
         (Z.lxor (hashKey_ b) (zobristTable_ zob x y p)).
Proof.
  unfold placeStone.
  destruct (inBounds x y); simpl; [ | discriminate].
  destruct (isOccupied b x y); [discriminate | ].
  intros E. injection E as <-. auto.
Qed.

Lemma placeStone_ok (b : Board) (x y : Z) (p : Player) :
  fst (placeStone zob b x y p) = inBounds x y && negb (isOccupied b x y).
Proof.
  unfold placeStone. destruct (inBounds x y); simpl; [ | reflexivity].
  destruct (isOccupied b x y); reflexivity.
Qed.

Lemma checkWin_same_cells (b b' : Board) (p : Player) :
  (forall x y, inBounds x y = true ->
               hasStone b' p x y = hasStone b p x y) ->
  checkWin b' p = checkWin b p.
Proof.
  intros H. unfold checkWin. apply existsb_pointwise. intros m.
  apply existsb_pointwise. intros d. unfold fiveFrom.
  apply forallb_pointwise. intros k.
  destruct (inBounds (Move.x m + k * fst d) (Move.y m + k * snd d)) eqn:E;
    [ | reflexivity].
  simpl. now apply H.
Qed.

(** The stones of a player on the board left by putting one more of them
    on a cell, whatever side and hash the board is given. *)
Lemma hasStone_after_put (b : Board) (p : Player) (x y : Z) (s : Player)
    (h : Z) (x' y' : Z) :
  inBounds x y = true -> inBounds x' y' = true ->
  hasStone (mkBoard (bbBlack (putStone b p x y)) (bbWhite (putStone b p x y))
              s h) p x' y'
  = hasStone b p x' y' || ((x' =? x) && (y' =? y)).
Proof.
  intros H H'. rewrite hasStone_ignores_side_hash, hasStone_putStone
    by assumption.
  now destruct p.
Qed.

(** Putting a stone of one player on the board leaves the other player's
    stones where they are. *)
Lemma hasStone_after_put_other (b : Board) (p q : Player) (x y : Z)
    (s : Player) (h : Z) (x' y' : Z) :
  p <> q ->
  hasStone (mkBoard (bbBlack (putStone b p x y)) (bbWhite (putStone b p x y))
              s h) q x' y'
  = hasStone b q x' y'.
Proof.
  intros Hpq. rewrite hasStone_ignores_side_hash.
  unfold hasStone, putStone. rewrite bb_set_bb.
  destruct p, q; try reflexivity; now contradiction Hpq.
Qed.

(** For the side to move, the probe and the stone placed directly agree. *)
Lemma winsAt_mover (b : Board) (m : Move) :
  winsAt zob b (side_to_move_ b) m
  = winsWithStone zob b (side_to_move_ b) m.
Proof.
  unfold winsAt, winsWithStone, isImmediateWinningMove.
  destruct (isOccupied b (Move.x m) (Move.y m)) eqn:O.
  - pose proof (placeStone_ok b (Move.x m) (Move.y m) (side_to_move_ b)) as P.
    rewrite O, andb_false_r in P.
    destruct (placeStone zob b (Move.x m) (Move.y m) (side_to_move_ b))
      as [ok b']. simpl in P. now subst ok.
  - destruct (makeMove zob b (Move.x m) (Move.y m)) as [ok b1] eqn:E.
    pose proof (makeMove_eq zob b (Move.x m) (Move.y m)) as Hok.
    rewrite E, O, andb_true_r in Hok. simpl in Hok.
    pose proof (placeStone_ok b (Move.x m) (Move.y m) (side_to_move_ b)) as P.
    rewrite O, andb_true_r in P.
    destruct (placeStone zob b (Move.x m) (Move.y m) (side_to_move_ b))
      as [ok' b2] eqn:E2. simpl in P. subst ok ok'.
    destruct (inBounds (Move.x m) (Move.y m)) eqn:Hin; simpl;
      [ | reflexivity].
    rewrite (unmakeMove_makeMove zob b b1 _ _ E). simpl.
    apply makeMove_true in E. destruct E as (_ & _ & ->).
    apply placeStone_true in E2. destruct E2 as (_ & _ & ->).
    apply checkWin_same_cells. intros x y Hxy.
    now rewrite !hasStone_after_put.
Qed.

Lemma find_existsb (f : Move -> bool) (l : list Move) :
  match find f l with Some _ => true | None => false end = existsb f l.
Proof.
  induction l as [ | a t IH]; simpl; [reflexivity | ].
  destruct (f a); [reflexivity | exact IH].
Qed.

(** For the side to move, [hasImmediateWinningThreat] is true exactly when
    that side has five in a row or a legal move on which its stone creates
    it. *)
Lemma hasImmediateWinningThreat_for_mover (b : Board) :
  hasImmediateWinningThreat zob (newImpl b) (sideToMove b)
  = canWinAtOnce zob b (sideToMove b).
Proof.
  unfold hasImmediateWinningThreat, canWinAtOnce, newImpl, sideToMove.
  cbn [rootBoard]. destruct (checkWin b (side_to_move_ b)); [reflexivity | ].
  rewrite threatLoop_existsb, collectLegalMoves_row_major, find_existsb.
  apply existsb_pointwise. intros m. apply winsAt_mover.
Qed.

End StoneFacts.

(** C1 does not hold of the code.  On [whiteFourBlackToMove] white has
    stones on (0,0)..(3,0) and no five yet, (4,0) is a legal move, and a
    white stone there gives white five in a row, so the claim requires
    true; [hasImmediateWinningThreat] for white returns false, because its
    probe plays the stone of black, who is to move. *)
Theorem hasImmediateWinningThreat_misses_waiting_player :
  sideToMove whiteFourBlackToMove = Black /\
  checkWin whiteFourBlackToMove White = false /\
  In (Move.mk 4 0) (getLegalMoves whiteFourBlackToMove) /\
  winsWithStone sampleZobrist whiteFourBlackToMove White (Move.mk 4 0)
    = true /\
  hasImmediateWinningThreat sampleZobrist (newImpl whiteFourBlackToMove) White
    = false.
Proof.
  split; [reflexivity | ].
  split; [vm_compute; reflexivity | ].
  split; [apply in_getLegalMoves_iff; split; vm_compute; reflexivity | ].
  split; vm_compute; reflexivity.
Qed.

(* ------------------------------------------------------------------ *)
(** * Defences that the defender can play *)

(** C2 does not hold of the code.  On [whiteFourBlackToMove] black is to
    move, white can win at once, and black has exactly one move that
    refutes it, the stone on (4,0), so the claim requires a list holding
    (4,0); [computeDefensiveSet] for black returns [isLost = false] with an
    empty list.  On [whiteOpenFourBlackToMove] white has two winning cells
    and black no move that refutes both, so the claim requires
    [isLost = true]; the answer is again [isLost = false] with an empty
    list.  The probe plays the stone of black, who is to move. *)
Theorem computeDefensiveSet_misses_refutation :
  (sideToMove whiteFourBlackToMove = Black /\
   canWinAtOnce sampleZobrist whiteFourBlackToMove White = true /\
   universalRefutations sampleZobrist whiteFourBlackToMove Black
     = [Move.mk 4 0] /\
   computeDefensiveSet sampleZobrist (newImpl whiteFourBlackToMove) Black
     defaultLimits = mkDefensiveSet false []) /\
  (sideToMove whiteOpenFourBlackToMove = Black /\
   winsWithStone sampleZobrist whiteOpenFourBlackToMove White (Move.mk 0 0)
     = true /\
   winsWithStone sampleZobrist whiteOpenFourBlackToMove White (Move.mk 5 0)
     = true /\
   universalRefutations sampleZobrist whiteOpenFourBlackToMove Black = [] /\
   computeDefensiveSet sampleZobrist (newImpl whiteOpenFourBlackToMove) Black
     defaultLimits = mkDefensiveSet false []).
Proof.
  split; repeat split; vm_compute; reflexivity.
Qed.

Section RoundTrip.
Variable zob : ZobristKeys.

Lemma filter_singleton (f : Move -> bool) (l : list Move) (m x : Move) :
  filter f l = [m] -> In x l -> f x = true -> x = m.
Proof.
  intros E Hin Hf.
  assert (H : In x (filter f l)) by (apply filter_In; auto).
  rewrite E in H. destruct H as [H | []]. now symmetry.
Qed.

(** Where the scan of [computeDefensiveSet] ran to its end, the opponent
    has no five on the board and the set is not lost, putting the
    defender's stone on a listed move leaves a board on which the sequence
    search for the opponent returns false, whatever its limits. *)
Lemma computeDefensiveSet_roundtrip_full_scan (b b' : Board)
    (defender : Player) (limits limits' : ThreatSearchLimits) (m : Move)
    (out : ThreatSequence) :
  neverStops limits (length (collectLegalMoves b)) ->
  checkWin b (otherPlayer defender) = false ->
  isLost (computeDefensiveSet zob (newImpl b) defender limits) = false ->
  In m (defensiveMoves (computeDefensiveSet zob (newImpl b) defender limits)) ->
  placeStone zob b (Move.x m) (Move.y m) defender = (true, b') ->
  findWinningThreatSequence zob (newImpl b') (otherPlayer defender) out
    limits' = (false, out).
Proof.
  intros Hlim Hwin Hlost Hm Hplace.
  set (a := otherPlayer defender) in *.
  assert (Hda : defender <> a) by (subst a; destruct defender; discriminate).
  assert (HW : filter (winsAt zob b a) (collectLegalMoves b) = [m]).
  { revert Hlost Hm. unfold computeDefensiveSet, newImpl. cbn [rootBoard].
    change 0 with (Z.of_nat 0).
    rewrite (defenseLoop_complete zob _ limits _ b 0 _ Hlim).
    cbn [isLost defensiveMoves app]. fold a.
    destruct (filter (winsAt zob b a) (collectLegalMoves b))
      as [ | m0 [ | m1 ms] ]; simpl; try discriminate; try tauto.
    intros _ [-> | []]. reflexivity. }
  apply placeStone_true in Hplace. destruct Hplace as (Hin & Hocc & ->).
  set (b' := mkBoard _ _ _ _).
  assert (Hsame : forall x y, hasStone b' a x y = hasStone b a x y).
  { intros x y. subst b'. now apply hasStone_after_put_other. }
  assert (Hwin' : checkWin b' a = false).
  { rewrite <- Hwin. apply checkWin_same_cells. intros x y _. apply Hsame. }
  unfold findWinningThreatSequence, newImpl. cbn [rootBoard]. rewrite Hwin'.
  destruct (findLoop zob a limits' (collectLegalMoves b') b' 0)
    as [s | ] eqn:L; [exfalso | reflexivity].
  apply findLoop_some in L. destruct L as (m' & Hin' & Hw' & _).
  apply winsAt_iff in Hw'. destruct Hw' as (b2 & E2 & W2).
  destruct (Player_eqb (side_to_move_ b) a) eqn:Hside.
  - assert (Hs : side_to_move_ b = a)
      by (destruct (side_to_move_ b), a; simpl in Hside; congruence).
    pose proof (makeMove_true zob _ _ _ _ E2) as (Hin2 & Hocc2 & Hb2).
    apply isOccupied_false in Hocc2.
    assert (Hfree_a : hasStone b a (Move.x m') (Move.y m') = false).
    { rewrite <- Hsame. destruct a; tauto. }
    assert (Hfree_d : hasStone b' defender (Move.x m') (Move.y m') = false)
      by (destruct defender; tauto).
    subst b'. rewrite hasStone_after_put in Hfree_d by assumption.
    apply orb_false_elim in Hfree_d. destruct Hfree_d as [Hfree_d Hcell].
    assert (Hocc_b : isOccupied b (Move.x m') (Move.y m') = false).
    { unfold isOccupied. destruct defender, a;
        try (now contradiction Hda); rewrite Hfree_a, Hfree_d; reflexivity. }
    destruct (makeMove_legal zob b _ _ Hin2 Hocc_b) as [b3 E3].
    assert (W3 : checkWin b3 a = true).
    { rewrite <- W2. apply checkWin_same_cells. intros x y Hxy.
      pose proof (makeMove_true zob _ _ _ _ E3) as (_ & _ & ->).
      rewrite Hb2. cbn [side_to_move_]. rewrite Hs.
      rewrite !hasStone_after_put by assumption.
      now rewrite hasStone_after_put_other by assumption. }
    assert (Hwb : winsAt zob b a m' = true) by (apply winsAt_iff; eauto).
    assert (Hlegal : In m' (collectLegalMoves b)).
    { apply in_collectLegalMoves_iff, in_getLegalMoves_iff. auto. }
    pose proof (filter_singleton _ _ _ _ HW Hlegal Hwb) as ->.
    rewrite !Z.eqb_refl in Hcell. discriminate.
  - assert (Hne : a <> side_to_move_ b').
    { subst b'. cbn [side_to_move_]. intros ->.
      destruct (side_to_move_ b); discriminate. }
    rewrite (makeMove_keeps_other zob b' b2 _ _ a E2 Hne) in W2. congruence.
Qed.

End RoundTrip.

